(** * Storefront widgets: best-sellers grid with quick-view modal, and the
      two auto-rotating carousels.

    Shallow embedding of
      - components/main/home-page/product-sale.tsx   (module [ProductSale])
      - the two RunningCarousel.tsx variants         (module [Carousel])

    Conventions.
      - A JavaScript value that may be [undefined] or [null] is an [option];
        the nullish-coalescing operator [a ?? b] is [nullish a b].
      - Prices and ratings are JavaScript numbers (IEEE doubles).  Their
        arithmetic is kept behind the interface [JsNumber], so nothing proved
        here depends on how [/], [*] or [Math.round] round; [QNumber] is the
        exact-rational instance used to run examples.
      - An integer-valued JavaScript number is held as a [Z].  Where the
        code computes with one that can grow (the quantity), the exact
        result is rounded to the nearest double by [toDouble], with
        [INFINITY] standing for Infinity; slide indices stay below the
        number of slides, where the arithmetic of doubles is exact.  The
        remainder operator [%] is [Z.rem] (truncating, sign of the dividend).
      - React state is a record; an event handler is a function from the
        state to the new state and the list of outputs it produced.  The
        passive effects a state change schedules are run as part of the
        transition that caused it. *)

From Stdlib Require Import ZArith QArith Qround String Ascii List Bool Lia.
From Stdlib Require Import DecimalString DecimalPos.
From Stdlib Require Import Lqa.
Import ListNotations.
Open Scope string_scope.
Open Scope Z_scope.

(* ================================================================== *)
(** ** JavaScript helpers *)

(** [a ?? b] *)
Definition nullish {A : Type} (a b : option A) : option A :=
  match a with
  | Some x => Some x
  | None => b
  end.

(** [a ?? d] where [d] is never nullish. *)
Definition nullish_or {A : Type} (a : option A) (d : A) : A :=
  match a with
  | Some x => x
  | None => d
  end.

Notation "a ?? b" := (nullish a b) (at level 71, right associativity).

(** [arr && arr[0]] followed by [??]: an absent array and an empty one both
    give a nullish value. *)
Definition first_of {A : Type} (arr : option (list A)) : option A :=
  match arr with
  | Some l => nth_error l 0
  | None => None
  end.

(** [arr[i]] for a number [i]: an element only at an index of the array. *)
Definition at_index {A : Type} (arr : list A) (i : Z) : option A :=
  if i <? 0 then None else nth_error arr (Z.to_nat i).

(** [!s] for a [string | null]: null and the empty string are falsy. *)
Definition falsy_str (s : option string) : bool :=
  match s with
  | None => true
  | Some "" => true
  | Some _ => false
  end.

(** *** Integers held in doubles *)

(** The value that stands for Infinity: the least power of two a double
    cannot hold. *)
Definition INFINITY : Z := 2 ^ 1024.

(** The double nearest to a non-negative integer, with an unbounded
    exponent: 53 significant bits, ties to the even significand. *)
Definition round_nearest (x : Z) : Z :=
  if x <? 2 ^ 53 then x
  else
    let ulp := 2 ^ (Z.log2 x - 52) in
    let q := x / ulp in
    let r := x mod ulp in
    let lo := q * ulp in
    if 2 * r <? ulp then lo
    else if ulp <? 2 * r then lo + ulp
    else if Z.even q then lo else lo + ulp.

(** The Number value of an integer: the nearest double, or plus or minus
    Infinity when that would not fit. *)
Definition toDouble (x : Z) : Z :=
  Z.sgn x * Z.min (round_nearest (Z.abs x)) INFINITY.

(** The decimal digits of an integer, with a minus sign when negative. *)
Definition decimal (n : Z) : string := NilZero.string_of_int (Z.to_int n).

(** The multiple of [p] next to [x], below or above, that reads back as the
    double [x]; of two, the nearer one, and the even one when as near. *)
Definition shortest_at (x p : Z) : option Z :=
  let c1 := x / p in
  let c2 := c1 + 1 in
  match toDouble (c1 * p) =? x, toDouble (c2 * p) =? x with
  | true, true =>
      let d1 := x - c1 * p in
      let d2 := c2 * p - x in
      if d1 <? d2 then Some c1
      else if d2 <? d1 then Some c2
      else if Z.even c1 then Some c1 else Some c2
  | true, false => Some c1
  | false, true => Some c2
  | false, false => None
  end.

(** The fewest significant digits that read back as the double [x], which
    has [nd] decimal digits: the digits, as a number, and how many. *)
Fixpoint shortest (x nd : Z) (ks : list Z) : Z * Z :=
  match ks with
  | [] => (x, nd)
  | k :: rest =>
      if nd <? k then (x, nd)
      else match shortest_at x (10 ^ (nd - k)) with
           | Some c => (c, k)
           | None => shortest x nd rest
           end
  end.

Fixpoint zeros (n : nat) : string :=
  match n with
  | O => ""
  | S m => String "0" (zeros m)
  end.

(** [String(x)] for a positive integer-valued double [x]: its digits up to
    2^53; beyond, the fewest digits that read back as [x], padded with
    zeros up to 21 digits and in exponent notation from there. *)
Definition render_pos (x : Z) : string :=
  if x <=? 2 ^ 53 then decimal x
  else if INFINITY <=? x then "Infinity"
  else
    let nd := Z.of_nat (String.length (decimal x)) in
    let '(c, k) :=
      shortest x nd [1; 2; 3; 4; 5; 6; 7; 8; 9; 10; 11; 12; 13; 14; 15; 16; 17] in
    let '(s, n, k') := if c =? 10 ^ k then (1, nd + 1, 1) else (c, nd, k) in
    let ds := decimal s in
    if n <=? 21 then ds ++ zeros (Z.to_nat (n - k'))
    else
      match ds with
      | String d rest =>
          (match rest with
           | EmptyString => String d ""
           | _ => String d (String "." rest)
           end) ++ "e+" ++ decimal (n - 1)
      | EmptyString => ""
      end.

(** [String(n)] for the Number value of an integer. *)
Definition String_of_Z (n : Z) : string :=
  let x := toDouble n in
  if x <? 0 then String "-" (render_pos (- x)) else render_pos x.

(** The operations of JavaScript numbers the components use. *)
Class JsNumber (num : Type) := {
  num_gt : num -> num -> bool;          (* a > b *)
  num_sub : num -> num -> num;          (* a - b *)
  num_div : num -> num -> num;          (* a / b *)
  num_mul : num -> num -> num;          (* a * b *)
  num_of_Z : Z -> num;                  (* integer literals *)
  Math_round : num -> num;
  Math_max : num -> num -> num
}.

(** Exact rationals; [Math.round] rounds half up. *)
#[export] Instance QNumber : JsNumber Q := {
  num_gt a b := if Qlt_le_dec b a then true else false;
  num_sub := Qminus;
  num_div := Qdiv;
  num_mul := Qmult;
  num_of_Z := inject_Z;
  Math_round x := inject_Z (Qfloor (x + (1 # 2)));
  Math_max a b := if Qlt_le_dec a b then b else a
}.

(* ================================================================== *)
(** ** The catalog entry as the mapping helpers probe it *)

Module Product.

Record Media := { original_url : option string }.

Inductive Id :=
| IdNum (n : Z)
| IdStr (s : string).

Record t {num : Type} := {
  id : option Id;
  slug : option string;
  name : option string;
  title : option string;
  image : option string;
  thumbnail : option string;
  images : option (list string);
  media : option (list Media);
  price : option num;
  selling_price : option num;
  final_price : option num;
  base_price : option num;
  compare_at_price : option num;
  original_price : option num;
  normal_price : option num;
  was : option num;
  description : option string;
  rating : option num;
  reviews_count : option Z;
  stock : option Z;
  sku : option string
}.
Arguments t : clear implicits.

Definition String_of_Id (i : Id) : string :=
  match i with
  | IdNum n => String_of_Z n
  | IdStr s => s
  end.

End Product.

Module Color.
Record t := { name : string; hex : string }.
End Color.

(* ================================================================== *)
(** ** product-sale.tsx *)

Module ProductSale.

Section WithNumbers.

Context {num : Type} `{JsNumber num}.

Definition FALLBACK_IMG : string :=
  "https://placehold.co/800x1066/efefef/444?text=Product".

Record SaleItem := {
  id : string;
  name : string;
  price : num;
  was : option num;
  href : string;
  image : option string;
  images : option (list string);
  desc : option string;
  rating : option num;
  reviews : option Z;
  stock : option Z;
  sku : option string;
  colors : option (list Color.t);
  sizes : option (list string)
}.

Definition DEF_COLORS : list Color.t :=
  [ {| Color.name := "Navy";  Color.hex := "#1f2937" |};
    {| Color.name := "Black"; Color.hex := "#111827" |};
    {| Color.name := "White"; Color.hex := "#F9FAFB" |};
    {| Color.name := "Grey";  Color.hex := "#6b7280" |} ].

Definition DEF_SIZES : list string := ["S"; "M"; "L"; "XL"; "XXL"].

(** *** Helpers mapping *)

Definition getProductImage (p : Product.t num) : option string :=
  Product.image p ??
  Product.thumbnail p ??
  first_of (Product.images p) ??
  match first_of (Product.media p) with
  | Some m => Product.original_url m
  | None => None
  end.

Definition getProductSlug (p : Product.t num) : string :=
  nullish_or (Product.slug p)
    (match Product.id p with
     | Some i => Product.String_of_Id i
     | None => ""
     end).

Definition getProductName (p : Product.t num) : string :=
  nullish_or (Product.name p ?? Product.title p) "Product".

(** [getPrices]: the pair [(price, was)]; a compare-at price that is not
    strictly above the current one is dropped. *)
Definition rawWas (p : Product.t num) : option num :=
  Product.compare_at_price p ??
  Product.original_price p ??
  Product.normal_price p ??
  Product.was p.

Definition getPrices (p : Product.t num) : num * option num :=
  let price :=
    nullish_or
      (Product.price p ??
       Product.selling_price p ??
       Product.final_price p ??
       Product.base_price p)
      (num_of_Z 0) in
  let was := rawWas p in
  let safeWas :=
    match was with
    | Some w => if num_gt w price then Some w else None
    | None => None
    end in
  (price, safeWas).

Definition toSaleItem (p : Product.t num) : SaleItem :=
  let '(price, was) := getPrices p in
  let slug := getProductSlug p in
  {| id := match Product.id p with
           | Some i => Product.String_of_Id i
           | None => slug
           end;
     name := getProductName p;
     price := price;
     was := was;
     href := "/product/" ++ slug;
     image := Some (nullish_or (getProductImage p) FALLBACK_IMG);
     images := None;
     desc := Product.description p;
     rating := Product.rating p;
     reviews := Product.reviews_count p;
     stock := Product.stock p;
     sku := Product.sku p;
     colors := Some DEF_COLORS;
     sizes := Some DEF_SIZES |}.

(** [(data?.data ?? []).slice(0, 8).map(toSaleItem)] *)
Definition items (data : option (list (Product.t num))) : list SaleItem :=
  map toSaleItem (firstn 8 (nullish_or data [])).

(** *** Discount badge *)

(** [typeof p.was === "number" && p.was > p.price] *)
Definition hasDiscount (p : SaleItem) : bool :=
  match was p with
  | Some w => num_gt w (price p)
  | None => false
  end.

(** [Math.max(0, Math.round(((was - price) / was) * 100))] *)
Definition percentOff (w pr : num) : num :=
  Math_max (num_of_Z 0)
    (Math_round (num_mul (num_div (num_sub w pr) w) (num_of_Z 100))).

(** The [disc] constant of a grid card. *)
Definition disc (p : SaleItem) : num :=
  match was p with
  | Some w => if num_gt w (price p) then percentOff w (price p) else num_of_Z 0
  | None => num_of_Z 0
  end.

(** The percentage of the badge on a grid card, when the badge is there. *)
Definition gridBadge (p : SaleItem) : option num :=
  if hasDiscount p then Some (disc p) else None.

(** The percentage of the badge in the modal header, when it is there. *)
Definition modalBadge (active : SaleItem) : option num :=
  match was active with
  | Some w =>
      if num_gt w (price active) then Some (percentOff w (price active))
      else None
  | None => None
  end.

(** *** Component state *)

(** An item object of the memoised [items] array.  [oid] stands for the
    object's identity: the generation of the memo that built it and its
    position in the array.  [setActive] compares identities, as React's
    [Object.is] bail-out does. *)
Record Obj := { oid : nat * nat; val : SaleItem }.

Definition sameObj (a b : option Obj) : bool :=
  match a, b with
  | None, None => true
  | Some x, Some y =>
      Nat.eqb (fst (oid x)) (fst (oid y)) && Nat.eqb (snd (oid x)) (snd (oid y))
  | _, _ => false
  end.

(** Payload of the [cart:add] event: [{ ...active, color, size, qty }]. *)
Record CartAdd := {
  detail_item : SaleItem;
  detail_color : string;
  detail_size : string;
  detail_qty : Z
}.

Inductive Output :=
| Alert (msg : string)                  (* window.alert, blocking *)
| DispatchCartAdd (detail : CartAdd)    (* window.dispatchEvent *)
| DeferFocusClose.                      (* setTimeout(focus close button, 0) *)

(** The hooks of [ProductSale], the query result it reads, and the one
    document property it writes. *)
Record State := {
  mounted : bool;
  isLoading : bool;
  isError : bool;
  data : option (list (Product.t num));   (* data?.data *)
  memoGen : nat;                          (* recomputations of [items] *)
  active : option Obj;
  activeImg : Z;
  color : option string;
  size : option string;
  qty : Z;
  overflow : string      (* document.documentElement.style.overflow *)
}.

Definition set_overflow (v : string) (st : State) : State :=
  {| mounted := mounted st; isLoading := isLoading st; isError := isError st;
     data := data st; memoGen := memoGen st; active := active st;
     activeImg := activeImg st; color := color st; size := size st;
     qty := qty st; overflow := v |}.

Definition set_active (v : option Obj) (st : State) : State :=
  {| mounted := mounted st; isLoading := isLoading st; isError := isError st;
     data := data st; memoGen := memoGen st; active := v;
     activeImg := activeImg st; color := color st; size := size st;
     qty := qty st; overflow := overflow st |}.

Definition setActiveImg (v : Z) (st : State) : State :=
  {| mounted := mounted st; isLoading := isLoading st; isError := isError st;
     data := data st; memoGen := memoGen st; active := active st;
     activeImg := v; color := color st; size := size st;
     qty := qty st; overflow := overflow st |}.

Definition setColor (v : option string) (st : State) : State :=
  {| mounted := mounted st; isLoading := isLoading st; isError := isError st;
     data := data st; memoGen := memoGen st; active := active st;
     activeImg := activeImg st; color := v; size := size st;
     qty := qty st; overflow := overflow st |}.

Definition setSize (v : option string) (st : State) : State :=
  {| mounted := mounted st; isLoading := isLoading st; isError := isError st;
     data := data st; memoGen := memoGen st; active := active st;
     activeImg := activeImg st; color := color st; size := v;
     qty := qty st; overflow := overflow st |}.

Definition setQty (v : Z) (st : State) : State :=
  {| mounted := mounted st; isLoading := isLoading st; isError := isError st;
     data := data st; memoGen := memoGen st; active := active st;
     activeImg := activeImg st; color := color st; size := size st;
     qty := v; overflow := overflow st |}.

Definition set_query (l e : bool) (d : option (list (Product.t num)))
    (g : nat) (st : State) : State :=
  {| mounted := mounted st; isLoading := l; isError := e;
     data := d; memoGen := g; active := active st;
     activeImg := activeImg st; color := color st; size := size st;
     qty := qty st; overflow := overflow st |}.

Definition set_mounted (v : bool) (st : State) : State :=
  {| mounted := v; isLoading := isLoading st; isError := isError st;
     data := data st; memoGen := memoGen st; active := active st;
     activeImg := activeImg st; color := color st; size := size st;
     qty := qty st; overflow := overflow st |}.

(** The objects of the current [items] array. *)
Definition itemObjs (st : State) : list Obj :=
  let its := items (data st) in
  map (fun '(i, it) => {| oid := (memoGen st, i); val := it |})
      (combine (seq 0 (length its)) its).

(** *** The effect on [active] *)

(** The cleanup the effect returns. *)
Definition activeCleanup (st : State) : State := set_overflow "" st.

(** [active.colors?.[0]?.name ?? null] *)
Definition defaultColor (a : SaleItem) : option string :=
  option_map Color.name (first_of (colors a)).

(** [active.sizes?.[0] ?? null] *)
Definition defaultSize (a : SaleItem) : option string := first_of (sizes a).

(** The effect body. *)
Definition activeEffect (st : State) : State * list Output :=
  match active st with
  | Some a =>
      (setQty 1
         (setSize (defaultSize (val a))
            (setColor (defaultColor (val a))
               (setActiveImg 0 (set_overflow "hidden" st)))),
       [DeferFocusClose])
  | None => (set_overflow "" st, [])
  end.

(** [setActive(v)]: nothing happens when [v] is the value already held;
    otherwise the component renders again, and the effect depending on
    [active] is cleaned up and run. *)
Definition setActive (v : option Obj) (st : State) : State * list Output :=
  if sameObj (active st) v then (st, [])
  else activeEffect (activeCleanup (set_active v st)).

(** First render and its effects. *)
Definition mount (l e : bool) (d : option (list (Product.t num))) : State :=
  fst (activeEffect
    {| mounted := true; isLoading := l; isError := e; data := d;
       memoGen := 0%nat; active := None; activeImg := 0; color := None;
       size := None; qty := 1; overflow := "" |}).

(** [useMemo(() => active ? active.price * qty : 0, [active, qty])] *)
Definition total (st : State) : num :=
  match active st with
  | Some a => num_mul (price (val a)) (num_of_Z (qty st))
  | None => num_of_Z 0
  end.

(** *** What is on screen *)

(** The grid section (and, under it, the modal) is returned only when the
    query is neither loading nor failed. *)
Definition rendered (st : State) : bool :=
  mounted st && negb (isLoading st) && negb (isError st).

Definition modalShown (st : State) : option SaleItem :=
  if rendered st then option_map val (active st) else None.

(** [(active.images ?? [active.image ?? FALLBACK_IMG])] *)
Definition thumbs (a : SaleItem) : list string :=
  nullish_or (images a) [nullish_or (image a) FALLBACK_IMG].

(** [disabled={!active.stock || active.stock <= 0}] *)
Definition addDisabled (a : SaleItem) : bool :=
  match stock a with
  | None => true
  | Some n => ((n =? 0) || (n <=? 0))%Z
  end.

(** *** Quantity controls *)

(** The white space [parseInt] skips (tab, line feed, vertical tab, form
    feed, carriage return, space, U+00A0, U+1680, U+2000 to U+200A, U+2028,
    U+2029, U+202F, U+205F, U+3000, U+FEFF), in the UTF-8 bytes that a
    [string] holds: of one byte, of two and of three. *)
Definition is_space (c : ascii) : bool :=
  let n := nat_of_ascii c in
  ((9 <=? n) && (n <=? 13) || (n =? 32))%nat.

Definition is_space2 (c1 c2 : ascii) : bool :=
  ((nat_of_ascii c1 =? 194) && (nat_of_ascii c2 =? 160))%nat.

Definition is_space3 (c1 c2 c3 : ascii) : bool :=
  let a := nat_of_ascii c1 in
  let b := nat_of_ascii c2 in
  let c := nat_of_ascii c3 in
  ((a =? 225) && (b =? 154) && (c =? 128)
   || (a =? 226) && (b =? 128)
      && ((128 <=? c) && (c <=? 138) || (c =? 168) || (c =? 169) || (c =? 175))
   || (a =? 226) && (b =? 129) && (c =? 159)
   || (a =? 227) && (b =? 128) && (c =? 128)
   || (a =? 239) && (b =? 187) && (c =? 191))%nat.

Definition digit_of (c : ascii) : option Z :=
  let n := nat_of_ascii c in
  if ((48 <=? n) && (n <=? 57))%nat then Some (Z.of_nat n - 48) else None.

Fixpoint skip_spaces (s : string) : string :=
  match s with
  | EmptyString => s
  | String c1 s1 =>
      if is_space c1 then skip_spaces s1
      else if (nat_of_ascii c1 <? 128)%nat then s
      else
        match s1 with
        | EmptyString => s
        | String c2 s2 =>
            if is_space2 c1 c2 then skip_spaces s2
            else
              match s2 with
              | EmptyString => s
              | String c3 s3 =>
                  if is_space3 c1 c2 c3 then skip_spaces s3 else s
              end
        end
  end.

Definition bytes (l : list nat) : string :=
  fold_right (fun n s => String (ascii_of_nat n) s) "" l.

(** The white space characters, each in its UTF-8 bytes. *)
Definition WHITE_SPACE : list string :=
  map bytes
    [ [9]; [10]; [11]; [12]; [13]; [32]; [194; 160]; [225; 154; 128];
      [226; 128; 128]; [226; 128; 129]; [226; 128; 130]; [226; 128; 131];
      [226; 128; 132]; [226; 128; 133]; [226; 128; 134]; [226; 128; 135];
      [226; 128; 136]; [226; 128; 137]; [226; 128; 138]; [226; 128; 168];
      [226; 128; 169]; [226; 128; 175]; [226; 129; 159]; [227; 128; 128];
      [239; 187; 191] ]%nat.

(** The longest prefix of decimal digits, as the integer it writes; [None]
    when the prefix is empty. *)
Fixpoint read_digits (s : string) (acc : option Z) : option Z :=
  match s with
  | String c s' =>
      match digit_of c with
      | Some d => read_digits s' (Some (10 * nullish_or acc 0 + d))
      | None => acc
      end
  | EmptyString => acc
  end.

(** [parseInt(s, 10)]: the Number value of the signed integer written
    after the white space; [None] is NaN.  Both zeros are 0, which
    [Math.max(1, _)] does not tell apart.  The integer written is rounded
    as it stands, however many digits it has. *)
Definition parseInt (s : string) : option Z :=
  match skip_spaces s with
  | String "-" r => option_map (fun n => toDouble (- n)) (read_digits r None)
  | String "+" r => option_map toDouble (read_digits r None)
  | r => option_map toDouble (read_digits r None)
  end.

(** [setQty((q) => Math.max(1, q - 1))] *)
Definition decQty (q : Z) : Z := Z.max 1 (toDouble (q - 1)).

(** [setQty((q) => q + 1)] *)
Definition incQty (q : Z) : Z := toDouble (q + 1).

(** The quantity input's [onChange]. *)
Definition inputQty (value : string) : Z :=
  match parseInt value with
  | None => 1
  | Some v => Z.max 1 v
  end.

(** *** Add to Cart *)

Definition ALERT_MSG : string := "Please select a color and size first.".

(** A string that passes [!s] as false: neither null nor empty. *)
Definition truthy_str (s : option string) : option string :=
  if falsy_str s then None else s.

(** The button's [onClick]. *)
Definition onAddToCart (a : SaleItem) (st : State) : State * list Output :=
  match truthy_str (color st), truthy_str (size st) with
  | Some c, Some s =>
      let ev := DispatchCartAdd
                  {| detail_item := a; detail_color := c;
                     detail_size := s; detail_qty := qty st |} in
      let '(st', out) := setActive None st in
      (st', ev :: out)
  | _, _ => (st, [Alert ALERT_MSG])
  end.

(** *** Events *)

(** What can happen to the mounted component: the query hook reports, the
    user clicks a card or a control of the modal, presses Escape, types a
    quantity, or the component is unmounted.  A control is named by its
    position in the list it is rendered from.  The Tab key only moves the
    focus and the wishlist button stops its click; neither touches the
    state, so they are not events here. *)
Inductive Event :=
| QueryFlags (loading error : bool)   (* same data, new flags *)
| QueryData (d : option (list (Product.t num)))
| ClickCard (i : nat)
| ClickOverlay
| ClickClose
| KeyEscape
| ClickThumb (i : nat)
| ClickColor (i : nat)
| ClickSize (i : nat)
| ClickMinus
| ClickPlus
| ChangeQty (value : string)
| ClickAddToCart
| Unmount.

(** A control of the modal reacts only while the modal is on screen. *)
Definition inModal (st : State)
    (k : SaleItem -> State * list Output) : State * list Output :=
  match modalShown st with
  | Some a => k a
  | None => (st, [])
  end.

Definition step (st : State) (ev : Event) : State * list Output :=
  if negb (mounted st) then (st, []) else
  match ev with
  | QueryFlags l e => (set_query l e (data st) (memoGen st) st, [])
  | QueryData d =>
      match data st, d with
      | None, None => (st, [])
      | _, _ => (set_query (isLoading st) (isError st) d (S (memoGen st)) st, [])
      end
  | ClickCard i =>
      if rendered st then
        match nth_error (itemObjs st) i with
        | Some p => setActive (Some p) st
        | None => (st, [])
        end
      else (st, [])
  | ClickOverlay => inModal st (fun _ => setActive None st)
  | ClickClose => inModal st (fun _ => setActive None st)
  | KeyEscape => setActive None st
  | ClickThumb i =>
      inModal st (fun a =>
        if (i <? length (thumbs a))%nat
        then (setActiveImg (Z.of_nat i) st, [])
        else (st, []))
  | ClickColor i =>
      inModal st (fun a =>
        match nth_error (nullish_or (colors a) DEF_COLORS) i with
        | Some c => (setColor (Some (Color.name c)) st, [])
        | None => (st, [])
        end)
  | ClickSize i =>
      inModal st (fun a =>
        match nth_error (nullish_or (sizes a) DEF_SIZES) i with
        | Some s => (setSize (Some s) st, [])
        | None => (st, [])
        end)
  | ClickMinus => inModal st (fun _ => (setQty (decQty (qty st)) st, []))
  | ClickPlus => inModal st (fun _ => (setQty (incQty (qty st)) st, []))
  | ChangeQty v => inModal st (fun _ => (setQty (inputQty v) st, []))
  | ClickAddToCart =>
      inModal st (fun a =>
        if addDisabled a then (st, []) else onAddToCart a st)
  | Unmount => (set_mounted false (activeCleanup st), [])
  end.

Fixpoint run (evs : list Event) (st : State) : State * list Output :=
  match evs with
  | [] => (st, [])
  | ev :: rest =>
      let '(st1, out1) := step st ev in
      let '(st2, out2) := run rest st1 in
      (st2, (out1 ++ out2)%list)
  end.

(** The states the component can be in. *)
Definition reachable (st : State) : Prop :=
  exists l e d evs, st = fst (run evs (mount l e d)).

(** *** What holds of every state *)

Definition quantityOk (st : State) : Prop := 1 <= qty st.

(** The scroll lock follows [active]; nothing is left behind after
    unmounting. *)
Definition scrollLockOk (st : State) : Prop :=
  overflow st =
  if mounted st
  then match active st with Some _ => "hidden" | None => "" end
  else "".

(** While an item is active it came out of [toSaleItem], and the selected
    color and size are among the fixed options. *)
Definition selectionOk (st : State) : Prop :=
  forall a, active st = Some a ->
    (exists p, val a = toSaleItem p) /\
    (exists c, color st = Some c /\ In c (map Color.name DEF_COLORS)) /\
    (exists s, size st = Some s /\ In s DEF_SIZES).

Definition Inv (st : State) : Prop :=
  quantityOk st /\ scrollLockOk st /\ selectionOk st.

(** *** More of what the modal shows *)

(** The main image:
    [(active.images ?? [active.image ?? FALLBACK_IMG])[activeImg] ?? FALLBACK_IMG] *)
Definition mainImage (a : SaleItem) (i : Z) : string :=
  nullish_or (at_index (thumbs a) i) FALLBACK_IMG.

(** [active.stock && active.stock > 0], the test of the stock line. *)
Definition inStock (a : SaleItem) : bool :=
  match stock a with
  | None => false
  | Some n => negb (n =? 0) && (n >? 0)
  end.

(** The text of the stock line. *)
Definition stockLabel (a : SaleItem) : string :=
  match stock a with
  | None => "Sold Out"
  | Some n =>
      if negb (n =? 0) && (n >? 0)
      then String_of_Z n ++ " available"
      else "Sold Out"
  end.

(** *** The Tab branch of the key handler *)

(** [activeEl === x] *)
Definition isActive (activeEl : option nat) (x : nat) : bool :=
  match activeEl with
  | Some y => Nat.eqb y x
  | None => false
  end.

(** Elements are named by numbers.  [panel] is what [querySelectorAll]
    returns on the panel, in document order, or [None] when the panel is
    not there; [activeEl] is [document.activeElement].  The result is the
    element the handler focuses (it then prevents the default), or [None]
    when it leaves the key to the browser. *)
Definition onTab (panel : option (list nat)) (activeEl : option nat)
    (shiftKey : bool) : option nat :=
  match panel with
  | None => None
  | Some focusables =>
      match focusables with
      | [] => None
      | first :: _ =>
          let last := List.last focusables first in
          if shiftKey && isActive activeEl first then Some last
          else if negb shiftKey && isActive activeEl last then Some first
          else None
      end
  end.

(** *** What leaves the component *)

Definition isDispatch (o : Output) : bool :=
  match o with
  | DispatchCartAdd _ => true
  | _ => false
  end.

Definition isCardClick (ev : Event) : bool :=
  match ev with
  | ClickCard _ => true
  | _ => false
  end.

(** 1 while an item is active. *)
Definition openNow (st : State) : nat :=
  match active st with
  | Some _ => 1%nat
  | None => 0%nat
  end.

(** A [cart:add] payload the cart can rely on. *)
Definition validPayload (o : Output) : Prop :=
  match o with
  | DispatchCartAdd d =>
      (exists p, detail_item d = toSaleItem p) /\
      addDisabled (detail_item d) = false /\
      In (detail_color d) (map Color.name DEF_COLORS) /\
      In (detail_size d) DEF_SIZES /\
      1 <= detail_qty d
  | _ => True
  end.

End WithNumbers.

Arguments SaleItem : clear implicits.
Arguments Obj : clear implicits.
Arguments State : clear implicits.
Arguments Event : clear implicits.
Arguments Output : clear implicits.
Arguments CartAdd : clear implicits.

End ProductSale.

(* ================================================================== *)
(** ** The star row of product-sale.tsx *)

(** A finite double is a rational, and [Math.floor], the subtraction of the
    floor and the comparisons are exact on doubles, so for a finite [value]
    the rationals compute what the component computes. *)
Module StarRating.

(** [Math.floor(value)] *)
Definition full (value : Q) : Z := Qfloor value.

(** [value - full >= 0.5] *)
Definition half (value : Q) : bool :=
  Qle_bool (1 # 2) (value - inject_Z (full value)).

(** [i < full || (i === full && half)] *)
Definition filled (value : Q) (i : Z) : bool :=
  (i <? full value) || ((i =? full value) && half value).

(** [Array.from({ length: 5 }).map((_, i) => filled)] *)
Definition stars (value : Q) : list bool :=
  map (filled value) [0; 1; 2; 3; 4].

End StarRating.

(* ================================================================== *)
(** ** RunningCarousel.tsx, both variants *)

Module Carousel.

(** *** The variant fed by the remote gallery listing *)

Module Gallery.

Inductive ImageField :=
| ImgString (s : string)
| ImgFile
| ImgNull.

Record GaleriItem := {
  id : Z;
  title : string;
  slug : string;
  description : string;
  published_at : string;
  image : ImageField
}.

Record Props := {
  heightClass : string;
  intervalMs : Z;
  showArrows : bool;
  showDots : bool
}.

Definition defaultProps : Props :=
  {| heightClass := "h-[60vh]"; intervalMs := 3000;
     showArrows := true; showDots := true |}.

(** The [items] memo: the [image] fields that are non-empty strings. *)
Definition items (data : option (list GaleriItem)) : list string :=
  filter (fun u => (0 <? String.length u)%nat)
    (map (fun it => match image it with
                    | ImgString s => s
                    | _ => ""
                    end)
         (nullish_or data [])).

Record State := {
  props : Props;
  mounted : bool;
  isLoading : bool;
  isError : bool;
  data : option (list GaleriItem);
  index : Z;
  paused : bool;
  timer : bool          (* an interval is armed *)
}.

Definition len (st : State) : Z := Z.of_nat (length (items (data st))).

Definition setIndex (v : Z) (st : State) : State :=
  {| props := props st; mounted := mounted st; isLoading := isLoading st;
     isError := isError st; data := data st; index := v;
     paused := paused st; timer := timer st |}.

Definition setPaused (v : bool) (st : State) : State :=
  {| props := props st; mounted := mounted st; isLoading := isLoading st;
     isError := isError st; data := data st; index := index st;
     paused := v; timer := timer st |}.

Definition set_timer (v : bool) (st : State) : State :=
  {| props := props st; mounted := mounted st; isLoading := isLoading st;
     isError := isError st; data := data st; index := index st;
     paused := paused st; timer := v |}.

Definition set_query (l e : bool) (d : option (list GaleriItem))
    (st : State) : State :=
  {| props := props st; mounted := mounted st; isLoading := l;
     isError := e; data := d; index := index st;
     paused := paused st; timer := timer st |}.

Definition set_mounted (v : bool) (st : State) : State :=
  {| props := props st; mounted := v; isLoading := isLoading st;
     isError := isError st; data := data st; index := index st;
     paused := paused st; timer := timer st |}.

(** [useEffect(() => setIndex(0), [items.length])] *)
Definition resetEffect (st : State) : State := setIndex 0 st.

(** The autoplay effect and its cleanup. *)
Definition autoplayCleanup (st : State) : State := set_timer false st.

Definition autoplayEffect (st : State) : State :=
  if paused st || (len st <=? 1) then st else set_timer true st.

(** The interval's callback: [setIndex((i) => (i + 1) % items.length)]. *)
Definition tick (st : State) : State :=
  setIndex (Z.rem (index st + 1) (len st)) st.

(** [go(dir)]: [setIndex((i) => (i + dir + items.length) % items.length)] *)
Definition go (dir : Z) (st : State) : State :=
  setIndex (Z.rem (index st + dir + len st) (len st)) st.

(** Effects whose dependencies differ between the previous render [old]
    and the new one are cleaned up and run again. *)
Definition commit (old new : State) : State :=
  let lenChanged := negb (len old =? len new) in
  let s1 := if lenChanged then resetEffect new else new in
  if lenChanged || negb (Bool.eqb (paused old) (paused new))
  then autoplayEffect (autoplayCleanup s1)
  else s1.

Definition mount (p : Props) (l e : bool) (d : option (list GaleriItem))
    : State :=
  autoplayEffect
    (resetEffect
       {| props := p; mounted := true; isLoading := l; isError := e;
          data := d; index := 0; paused := false; timer := false |}).

(** The placeholder panel replaces the track. *)
Definition placeholder (st : State) : bool :=
  isLoading st || isError st || (len st =? 0).

Definition arrowsShown (st : State) : bool :=
  negb (placeholder st) && showArrows (props st) && (1 <? len st).

Definition dotsShown (st : State) : bool :=
  negb (placeholder st) && showDots (props st) && (1 <? len st).

Inductive Event :=
| Query (loading error : bool) (d : option (list GaleriItem))
| MouseEnter
| MouseLeave
| Tick
| ClickPrev
| ClickNext
| ClickDot (i : nat)
| Unmount.

Definition step (st : State) (ev : Event) : State :=
  if negb (mounted st) then st else
  match ev with
  | Query l e d => commit st (set_query l e d st)
  | MouseEnter =>
      if placeholder st then st else commit st (setPaused true st)
  | MouseLeave =>
      if placeholder st then st else commit st (setPaused false st)
  | Tick => if timer st then tick st else st
  | ClickPrev => if arrowsShown st then go (-1) st else st
  | ClickNext => if arrowsShown st then go 1 st else st
  | ClickDot i =>
      if dotsShown st && (Z.of_nat i <? len st)
      then setIndex (Z.of_nat i) st else st
  | Unmount => set_mounted false (autoplayCleanup st)
  end.

Definition run (evs : list Event) (st : State) : State :=
  fold_left step evs st.

(** Every event but a new query result leaves the item sequence alone. *)
Definition keepsItems (ev : Event) : bool :=
  match ev with
  | Query _ _ _ => false
  | _ => true
  end.

(** The interval is armed exactly when the effect's guard lets it be. *)
Definition timerOk (st : State) : Prop :=
  timer st = mounted st && negb (paused st) && (1 <? len st).

(** The index points at a slide, or is 0 when there is none. *)
Definition indexOk (st : State) : Prop :=
  0 <= index st /\ (index st < len st \/ index st = 0).

End Gallery.

(** *** The variant fed by the [images] prop *)

Module Static.

Definition DEFAULT_IMAGE : string :=
  "https://i.pinimg.com/1200x/dc/28/77/dc2877f08ba923ba34c8fa70bae94128.jpg".

Record Props := {
  images : option (list string);
  heightClass : string;
  intervalMs : Z;
  showArrows : bool;
  showDots : bool
}.

Definition defaultProps (imgs : option (list string)) : Props :=
  {| images := imgs; heightClass := "h-[360px]"; intervalMs := 3500;
     showArrows := true; showDots := true |}.

(** [images?.length ? images : [DEFAULT_IMAGE, DEFAULT_IMAGE, DEFAULT_IMAGE]] *)
Definition items (imgs : option (list string)) : list string :=
  match imgs with
  | Some (x :: l) => x :: l
  | _ => [DEFAULT_IMAGE; DEFAULT_IMAGE; DEFAULT_IMAGE]
  end.

Record State := {
  props : Props;
  mounted : bool;
  index : Z;
  paused : bool;
  timer : bool
}.

Definition len (st : State) : Z :=
  Z.of_nat (length (items (images (props st)))).

Definition setIndex (v : Z) (st : State) : State :=
  {| props := props st; mounted := mounted st; index := v;
     paused := paused st; timer := timer st |}.

Definition setPaused (v : bool) (st : State) : State :=
  {| props := props st; mounted := mounted st; index := index st;
     paused := v; timer := timer st |}.

Definition set_timer (v : bool) (st : State) : State :=
  {| props := props st; mounted := mounted st; index := index st;
     paused := paused st; timer := v |}.

Definition set_images (imgs : option (list string)) (st : State) : State :=
  {| props := {| images := imgs;
                 heightClass := heightClass (props st);
                 intervalMs := intervalMs (props st);
                 showArrows := showArrows (props st);
                 showDots := showDots (props st) |};
     mounted := mounted st; index := index st;
     paused := paused st; timer := timer st |}.

Definition set_mounted (v : bool) (st : State) : State :=
  {| props := props st; mounted := v; index := index st;
     paused := paused st; timer := timer st |}.

Definition autoplayCleanup (st : State) : State := set_timer false st.

Definition autoplayEffect (st : State) : State :=
  if paused st then st else set_timer true st.

Definition tick (st : State) : State :=
  setIndex (Z.rem (index st + 1) (len st)) st.

Definition go (dir : Z) (st : State) : State :=
  setIndex (Z.rem (index st + dir + len st) (len st)) st.

(** The only effect is the autoplay one, on
    [[items.length, intervalMs, paused]]. *)
Definition commit (old new : State) : State :=
  if negb (len old =? len new) || negb (Bool.eqb (paused old) (paused new))
  then autoplayEffect (autoplayCleanup new)
  else new.

Definition mount (p : Props) : State :=
  autoplayEffect
    {| props := p; mounted := true; index := 0; paused := false;
       timer := false |}.

Definition arrowsShown (st : State) : bool := showArrows (props st).

Definition dotsShown (st : State) : bool := showDots (props st).

Inductive Event :=
| SetImages (imgs : option (list string))   (* the parent passes new images *)
| MouseEnter
| MouseLeave
| Tick
| ClickPrev
| ClickNext
| ClickDot (i : nat)
| Unmount.

Definition step (st : State) (ev : Event) : State :=
  if negb (mounted st) then st else
  match ev with
  | SetImages imgs => commit st (set_images imgs st)
  | MouseEnter => commit st (setPaused true st)
  | MouseLeave => commit st (setPaused false st)
  | Tick => if timer st then tick st else st
  | ClickPrev => if arrowsShown st then go (-1) st else st
  | ClickNext => if arrowsShown st then go 1 st else st
  | ClickDot i =>
      if dotsShown st && (Z.of_nat i <? len st)
      then setIndex (Z.of_nat i) st else st
  | Unmount => set_mounted false (autoplayCleanup st)
  end.

Definition run (evs : list Event) (st : State) : State :=
  fold_left step evs st.

(** Every event but a change of the [images] prop leaves the item sequence
    alone. *)
Definition keepsItems (ev : Event) : bool :=
  match ev with
  | SetImages _ => false
  | _ => true
  end.

(** The interval is armed exactly while mounted and not paused. *)
Definition timerOk (st : State) : Prop :=
  timer st = mounted st && negb (paused st).

End Static.

End Carousel.

(* ================================================================== *)
(** ** Sample data, over exact rationals *)

Module Samples.

Definition product (i : Z) (pr w : option Q) (st : option Z) : Product.t Q :=
  {| Product.id := Some (Product.IdNum i);
     Product.slug := None;
     Product.name := Some "Tee";
     Product.title := None;
     Product.image := None;
     Product.thumbnail := None;
     Product.images := Some [];
     Product.media := None;
     Product.price := pr;
     Product.selling_price := None;
     Product.final_price := None;
     Product.base_price := None;
     Product.compare_at_price := None;
     Product.original_price := w;
     Product.normal_price := None;
     Product.was := None;
     Product.description := None;
     Product.rating := None;
     Product.reviews_count := None;
     Product.stock := st;
     Product.sku := None |}.

(** 150000 now, 200000 before, three in stock. *)
Definition teeA : Product.t Q :=
  product 7 (Some (150000 # 1)%Q) (Some (200000 # 1)%Q) (Some 3).

(** A compare-at price below the current one, stock unknown. *)
Definition teeB : Product.t Q :=
  product 8 (Some (150000 # 1)%Q) (Some (100000 # 1)%Q) None.

(** The grid showing both, query settled. *)
Definition shop : ProductSale.State Q :=
  ProductSale.mount false false (Some [teeA; teeB]).

(** The modal just opened on the first card. *)
Definition opened : ProductSale.State Q :=
  fst (ProductSale.run [ProductSale.ClickCard 0] shop).

(** The same with the color taken away: a state of the right type that no
    run of the component produces. *)
Definition unselected : ProductSale.State Q :=
  ProductSale.setColor None opened.

(** After picking the third color and one more piece. *)
Definition browsing : list (ProductSale.Event Q) :=
  [ProductSale.ClickCard 0; ProductSale.ClickColor 2; ProductSale.ClickPlus].

Definition picture (i : Z) (src : string) : Carousel.Gallery.GaleriItem :=
  {| Carousel.Gallery.id := i;
     Carousel.Gallery.title := "";
     Carousel.Gallery.slug := "";
     Carousel.Gallery.description := "";
     Carousel.Gallery.published_at := "";
     Carousel.Gallery.image := Carousel.Gallery.ImgString src |}.

(** The gallery carousel over three pictures, query settled. *)
Definition gallery : Carousel.Gallery.State :=
  Carousel.Gallery.mount Carousel.Gallery.defaultProps false false
    (Some [picture 1 "a.jpg"; picture 2 "b.jpg"; picture 3 "c.jpg"]).

(** The static carousel over three images, and over a single one. *)
Definition slides : Carousel.Static.State :=
  Carousel.Static.mount
    (Carousel.Static.defaultProps (Some ["a.jpg"; "b.jpg"; "c.jpg"])).

Definition single : Carousel.Static.State :=
  Carousel.Static.mount (Carousel.Static.defaultProps (Some ["a.jpg"])).

End Samples.

(* ================================================================== *)
(** * List helpers *)

Lemma nth_error_combine {A B : Type} (l : list A) (l' : list B) (n : nat) :
  nth_error (combine l l') n =
  match nth_error l n, nth_error l' n with
  | Some a, Some b => Some (a, b)
  | _, _ => None
  end.
Proof.
  revert l' n. induction l as [|a l IH]; intros [|b l'] [|n]; cbn; try reflexivity.
  - destruct (nth_error l n); reflexivity.
  - apply IH.
Qed.

(** * Integers held in doubles *)

Lemma INFINITY_above_safe : 2 ^ 53 < INFINITY.
Proof. reflexivity. Qed.

(** Up to 2^53 in magnitude an integer is its own Number value. *)
Lemma toDouble_exact (x : Z) : - 2 ^ 53 <= x <= 2 ^ 53 -> toDouble x = x.
Proof.
  intros Hx. pose proof INFINITY_above_safe as Hinf.
  unfold toDouble, round_nearest.
  destruct (Z.ltb_spec (Z.abs x) (2 ^ 53)) as [Hlt | Hge].
  - rewrite Z.min_l by lia. destruct x; cbn [Z.sgn Z.abs]; lia.
  - assert (Hx' : x = 2 ^ 53 \/ x = - 2 ^ 53) by lia.
    destruct Hx' as [-> | ->]; vm_compute; reflexivity.
Qed.

(** Rounding never takes a positive integer below 1. *)
Lemma toDouble_ge_1 (x : Z) : 1 <= x -> 1 <= toDouble x.
Proof.
  intros Hx. pose proof INFINITY_above_safe as Hinf.
  unfold toDouble. rewrite Z.abs_eq, Z.sgn_pos, Z.mul_1_l by lia.
  apply Z.min_glb; [|lia].
  unfold round_nearest. destruct (Z.ltb_spec x (2 ^ 53)) as [Hlt | Hge]; [lia|].
  assert (He : 53 <= Z.log2 x) by (apply Z.log2_le_pow2; lia).
  pose proof (Z.log2_spec x ltac:(lia)) as [Hlo _].
  set (ulp := 2 ^ (Z.log2 x - 52)).
  assert (Hulp : 0 < ulp) by (apply Z.pow_pos_nonneg; lia).
  assert (Hsplit : 2 ^ Z.log2 x = ulp * 2 ^ 52).
  { unfold ulp. rewrite <- Z.pow_add_r by lia. f_equal. lia. }
  assert (Hq : 1 <= x / ulp).
  { apply Z.div_le_lower_bound; [exact Hulp|]. nia. }
  assert (Hlo' : 1 <= x / ulp * ulp) by nia.
  cbv zeta. fold ulp.
  destruct (2 * (x mod ulp) <? ulp); [exact Hlo'|].
  destruct (ulp <? 2 * (x mod ulp)); [lia|].
  destruct (Z.even (x / ulp)); lia.
Qed.

(** Up to 2^53 in magnitude [String] writes the digits of the integer. *)
Lemma String_of_Z_safe (v : Z) :
  - 2 ^ 53 <= v <= 2 ^ 53 -> String_of_Z v = decimal v.
Proof.
  intros Hv. unfold String_of_Z. rewrite (toDouble_exact v Hv). cbv zeta.
  unfold render_pos.
  destruct (Z.ltb_spec v 0) as [Hneg | Hpos].
  - replace (- v <=? 2 ^ 53) with true by (symmetry; apply Z.leb_le; lia).
    destruct v as [|p|p]; [lia | lia | reflexivity].
  - replace (v <=? 2 ^ 53) with true by (symmetry; apply Z.leb_le; lia).
    reflexivity.
Qed.

Lemma string_length_append (s1 s2 : string) :
  String.length (s1 ++ s2) = (String.length s1 + String.length s2)%nat.
Proof. induction s1 as [|c s1 IH]; cbn; [reflexivity | rewrite IH; reflexivity]. Qed.

(* ================================================================== *)
(** * Properties of the best-sellers grid and its quick-view modal *)

Module SaleProofs.

Import ProductSale.

Section WithNumbers.

Context {num : Type} `{JsNumber num}.

(** ** The item list *)

Lemma items_length (d : option (list (Product.t num))) :
  (length (items d) <= 8)%nat.
Proof.
  unfold items. rewrite length_map, length_firstn. apply Nat.le_min_l.
Qed.

Lemma itemObjs_length (st : State num) :
  length (itemObjs st) = length (items (data st)).
Proof.
  unfold itemObjs. rewrite length_map, length_combine, length_seq.
  apply Nat.min_id.
Qed.

Lemma itemObjs_nth (st : State num) (i : nat) (o : Obj num) :
  nth_error (itemObjs st) i = Some o ->
  oid o = (memoGen st, i) /\ nth_error (items (data st)) i = Some (val o).
Proof.
  unfold itemObjs. intros Hn.
  rewrite nth_error_map, nth_error_combine, nth_error_seq in Hn.
  destruct (Nat.ltb_spec i (length (items (data st)))); [|discriminate].
  destruct (nth_error (items (data st)) i) as [it|]; [|discriminate].
  cbn in Hn. inversion Hn. subst o. cbn. split; reflexivity.
Qed.

(** C9. Whatever the listing returns, the grid shows at most eight items:
    [items] is [toSaleItem] mapped over the first eight entries of the data
    (none when the data is absent), and the cards are exactly these. *)
Theorem items_at_most_eight :
  (forall d : option (list (Product.t num)),
     (length (items d) <= 8)%nat /\
     items d = map toSaleItem (firstn 8 (nullish_or d []))) /\
  (forall st : State num,
     (length (itemObjs st) <= 8)%nat /\
     map val (itemObjs st) = items (data st)).
Proof.
  split.
  - intros d. split; [apply items_length | reflexivity].
  - intros st. split.
    + rewrite itemObjs_length. apply items_length.
    + apply nth_error_ext. intros i.
      rewrite nth_error_map.
      destruct (nth_error (itemObjs st) i) as [o|] eqn:Ho; cbn.
      * apply itemObjs_nth in Ho. symmetry. apply Ho.
      * symmetry. apply nth_error_None.
        apply nth_error_None in Ho. rewrite itemObjs_length in Ho. exact Ho.
Qed.

(** ** Prices and the discount badge *)

Lemma getPrices_toSaleItem (p : Product.t num) :
  price (toSaleItem p) = fst (getPrices p) /\
  was (toSaleItem p) = snd (getPrices p).
Proof.
  unfold toSaleItem. destruct (getPrices p) as [pr w]. cbn. split; reflexivity.
Qed.

(** The compare-at price kept by [getPrices] is strictly above the price. *)
Lemma getPrices_was_above (p : Product.t num) (w : num) :
  snd (getPrices p) = Some w ->
  rawWas p = Some w /\ num_gt w (fst (getPrices p)) = true.
Proof.
  unfold getPrices. cbn.
  destruct (rawWas p) as [w'|]; [|discriminate].
  destruct (num_gt w' _) eqn:Hgt; [|discriminate].
  intros Hw. inversion Hw. subst. split; [reflexivity | exact Hgt].
Qed.

Lemma gridBadge_modalBadge (it : SaleItem num) :
  gridBadge it = modalBadge it.
Proof.
  unfold gridBadge, modalBadge, hasDiscount, disc.
  destruct (was it) as [w|]; [|reflexivity].
  destruct (num_gt w (price it)); reflexivity.
Qed.

(** C2. For the item built from any catalog entry, the grid card and the
    modal header show the same badge; the badge is there exactly when the
    item has an original price that is greater than its price, which is
    exactly when the entry's compare-at price is greater than the price;
    and the figure on it is
    [max(0, round((original - current) / original * 100))]. *)
Theorem discount_badge (p : Product.t num) :
  let it := toSaleItem p in
  gridBadge it = modalBadge it /\
  (gridBadge it <> None <->
     exists w, was it = Some w /\ num_gt w (price it) = true) /\
  (gridBadge it <> None <->
     exists w, rawWas p = Some w /\ num_gt w (price it) = true) /\
  (forall w, was it = Some w -> num_gt w (price it) = true ->
     gridBadge it =
       Some (Math_max (num_of_Z 0)
               (Math_round
                  (num_mul (num_div (num_sub w (price it)) w) (num_of_Z 100))))).
Proof.
  intros it. split; [apply gridBadge_modalBadge|].
  destruct (getPrices_toSaleItem p) as [Hp Hw]. fold it in Hp, Hw.
  assert (Hiff : gridBadge it <> None <->
                 exists w, was it = Some w /\ num_gt w (price it) = true).
  { unfold gridBadge, hasDiscount.
    destruct (was it) as [w|].
    - destruct (num_gt w (price it)) eqn:Hgt.
      + split; [intros _; exists w; auto | discriminate].
      + split; [congruence|]. intros (w' & Hw' & Hgt'). congruence.
    - split; [congruence|]. intros (w' & Hw' & _). discriminate. }
  split; [exact Hiff|]. split.
  - rewrite Hiff. split; intros (w & Hw1 & Hgt).
    + exists w. split; [|exact Hgt].
      rewrite Hw in Hw1. apply getPrices_was_above in Hw1. apply Hw1.
    + exists w. split; [|exact Hgt].
      rewrite Hw. unfold getPrices. cbn. rewrite Hw1.
      rewrite Hp in Hgt. unfold getPrices in Hgt. cbn in Hgt.
      rewrite Hgt. reflexivity.
  - intros w Hw1 Hgt. unfold gridBadge, hasDiscount, disc, percentOff.
    rewrite Hw1, Hgt. reflexivity.
Qed.

(** ** Invariants of the modal *)

Lemma toSaleItem_options (p : Product.t num) :
  colors (toSaleItem p) = Some DEF_COLORS /\
  sizes (toSaleItem p) = Some DEF_SIZES.
Proof.
  unfold toSaleItem. destruct (getPrices p). cbn. split; reflexivity.
Qed.

Lemma toSaleItem_defaults (p : Product.t num) :
  defaultColor (toSaleItem p) = Some "Navy" /\
  defaultSize (toSaleItem p) = Some "S".
Proof.
  unfold defaultColor, defaultSize.
  destruct (toSaleItem_options p) as [-> ->]. split; reflexivity.
Qed.

Lemma Inv_mount (l e : bool) (d : option (list (Product.t num))) :
  Inv (mount l e d).
Proof.
  unfold mount, Inv, quantityOk, scrollLockOk, selectionOk. cbn.
  split; [lia|]. split; [reflexivity | discriminate].
Qed.

Lemma setActive_mounted (v : option (Obj num)) (st : State num) :
  mounted (fst (setActive v st)) = mounted st.
Proof.
  unfold setActive. destruct (sameObj (active st) v); [reflexivity|].
  unfold activeEffect. cbn. destruct v; reflexivity.
Qed.

Lemma Inv_setActive_None (st : State num) :
  Inv st -> mounted st = true -> Inv (fst (setActive None st)).
Proof.
  intros HI Hm. unfold setActive.
  destruct (sameObj (active st) None); [exact HI|].
  destruct HI as (Hq & Hs & Hc).
  unfold Inv, quantityOk, scrollLockOk, selectionOk. cbn.
  rewrite Hm. split; [exact Hq|]. split; [reflexivity | discriminate].
Qed.

Lemma Inv_setActive_Some (st : State num) (o : Obj num) :
  Inv st -> mounted st = true -> (exists p, val o = toSaleItem p) ->
  Inv (fst (setActive (Some o) st)).
Proof.
  intros HI Hm (p & Hp). unfold setActive.
  destruct (sameObj (active st) (Some o)); [exact HI|].
  unfold Inv, quantityOk, scrollLockOk, selectionOk. cbn.
  destruct (toSaleItem_defaults p) as [Hc Hs].
  rewrite Hm. split; [lia|]. split; [reflexivity|].
  intros a Ha. inversion Ha. subst a. split; [exists p; exact Hp|].
  rewrite Hp, Hc, Hs. split.
  - exists "Navy". split; [reflexivity | cbn; auto].
  - exists "S". split; [reflexivity | cbn; auto].
Qed.

Lemma modalShown_active (st : State num) (a : SaleItem num) :
  modalShown st = Some a ->
  rendered st = true /\ exists o, active st = Some o /\ val o = a.
Proof.
  unfold modalShown. destruct (rendered st); [|discriminate].
  destruct (active st) as [o|]; [|discriminate].
  cbn. intros Ha. inversion Ha. split; [reflexivity|]. exists o. auto.
Qed.

Lemma rendered_mounted (st : State num) :
  rendered st = true -> mounted st = true.
Proof.
  unfold rendered. destruct (mounted st); [reflexivity | discriminate].
Qed.

(** The invariant reads only these fields. *)
Lemma Inv_ext (st st' : State num) :
  Inv st ->
  1 <= qty st' ->
  mounted st' = mounted st ->
  overflow st' = overflow st ->
  active st' = active st ->
  color st' = color st ->
  size st' = size st ->
  Inv st'.
Proof.
  intros (Hq & Hs & Hc) Hq' Hm Ho Ha Hco Hsi.
  unfold Inv, quantityOk, scrollLockOk, selectionOk.
  rewrite Hm, Ho, Ha, Hco, Hsi. auto.
Qed.

Lemma Inv_setQty (st : State num) (q : Z) :
  Inv st -> 1 <= q -> Inv (setQty q st).
Proof. intros HI Hq. apply (Inv_ext st); auto. Qed.

Lemma Inv_setActiveImg (st : State num) (i : Z) :
  Inv st -> Inv (setActiveImg i st).
Proof. intros HI. apply (Inv_ext st); auto. apply HI. Qed.

Lemma Inv_set_query (st : State num) (l e : bool)
    (d : option (list (Product.t num))) (g : nat) :
  Inv st -> Inv (set_query l e d g st).
Proof. intros HI. apply (Inv_ext st); auto. apply HI. Qed.

Lemma Inv_setColor (st : State num) (o : Obj num) (c : Color.t) (i : nat) :
  Inv st -> active st = Some o ->
  nth_error (nullish_or (colors (val o)) DEF_COLORS) i = Some c ->
  Inv (setColor (Some (Color.name c)) st).
Proof.
  intros (Hq & Hs & Hsel) Ho Hc.
  split; [exact Hq|]. split; [exact Hs|].
  intros a Ha. cbn in Ha. destruct (Hsel a Ha) as ((p & Hp) & _ & Hsz).
  split; [exists p; exact Hp|]. split; [|exact Hsz].
  exists (Color.name c). split; [reflexivity|].
  assert (a = o) by congruence. subst a.
  rewrite Hp in Hc. destruct (toSaleItem_options p) as [Hcs _].
  rewrite Hcs in Hc. cbn [nullish_or] in Hc.
  apply nth_error_In in Hc. apply (in_map Color.name) in Hc. exact Hc.
Qed.

Lemma Inv_setSize (st : State num) (o : Obj num) (z : string) (i : nat) :
  Inv st -> active st = Some o ->
  nth_error (nullish_or (sizes (val o)) DEF_SIZES) i = Some z ->
  Inv (setSize (Some z) st).
Proof.
  intros (Hq & Hs & Hsel) Ho Hc.
  split; [exact Hq|]. split; [exact Hs|].
  intros a Ha. cbn in Ha. destruct (Hsel a Ha) as ((p & Hp) & Hcol & _).
  split; [exists p; exact Hp|]. split; [exact Hcol|].
  exists z. split; [reflexivity|].
  assert (a = o) by congruence. subst a.
  rewrite Hp in Hc. destruct (toSaleItem_options p) as [_ Hss].
  rewrite Hss in Hc. cbn [nullish_or] in Hc.
  apply nth_error_In in Hc. exact Hc.
Qed.

Lemma inputQty_ge_1 (v : string) : 1 <= inputQty v.
Proof. unfold inputQty. destruct (parseInt v); lia. Qed.

Lemma Inv_step (st : State num) (ev : Event num) :
  Inv st -> Inv (fst (step st ev)).
Proof.
  intros HI. unfold step.
  destruct (mounted st) eqn:Hm; cbn [negb fst]; [|exact HI].
  destruct ev; cbv beta iota.
  - apply Inv_set_query, HI.
  - destruct (data st), d; cbn; try exact HI; apply Inv_set_query, HI.
  - destruct (rendered st); [|exact HI].
    destruct (nth_error (itemObjs st) i) as [o|] eqn:Ho; [|exact HI].
    apply Inv_setActive_Some; [exact HI | exact Hm |].
    apply itemObjs_nth in Ho. destruct Ho as [_ Ho].
    unfold items in Ho. rewrite nth_error_map in Ho.
    destruct (nth_error (firstn 8 (nullish_or (data st) [])) i) as [p|];
      [|discriminate].
    exists p. cbn [option_map] in Ho. inversion Ho. reflexivity.
  - unfold inModal. destruct (modalShown st); [|exact HI].
    apply Inv_setActive_None; assumption.
  - unfold inModal. destruct (modalShown st); [|exact HI].
    apply Inv_setActive_None; assumption.
  - apply Inv_setActive_None; assumption.
  - unfold inModal. destruct (modalShown st); [|exact HI].
    destruct (_ <? _)%nat; [|exact HI]. apply Inv_setActiveImg, HI.
  - unfold inModal. destruct (modalShown st) as [a|] eqn:Ha; [|exact HI].
    destruct (nth_error _ i) as [c|] eqn:Hc; [|exact HI]. cbn.
    apply modalShown_active in Ha. destruct Ha as (_ & o & Ho & Hv).
    subst a. apply (Inv_setColor st o c i); assumption.
  - unfold inModal. destruct (modalShown st) as [a|] eqn:Ha; [|exact HI].
    destruct (nth_error _ i) as [z|] eqn:Hc; [|exact HI]. cbn.
    apply modalShown_active in Ha. destruct Ha as (_ & o & Ho & Hv).
    subst a. apply (Inv_setSize st o z i); assumption.
  - unfold inModal. destruct (modalShown st); [|exact HI]. cbn.
    apply Inv_setQty; [exact HI|]. unfold decQty. lia.
  - unfold inModal. destruct (modalShown st); [|exact HI]. cbn.
    apply Inv_setQty; [exact HI|]. destruct HI as (Hq & _).
    unfold incQty, quantityOk in *. apply toDouble_ge_1. lia.
  - unfold inModal. destruct (modalShown st); [|exact HI]. cbn.
    apply Inv_setQty; [exact HI|]. apply inputQty_ge_1.
  - unfold inModal. destruct (modalShown st) as [a|]; [|exact HI].
    destruct (addDisabled a); [exact HI|].
    unfold onAddToCart.
    destruct (truthy_str (color st)); [|exact HI].
    destruct (truthy_str (size st)); [|exact HI].
    pose proof (Inv_setActive_None st HI Hm) as HI'.
    destruct (setActive None st) as [st' out]. exact HI'.
  - destruct HI as (Hq & Hs & Hsel).
    split; [exact Hq|]. split; [reflexivity | exact Hsel].
Qed.

Lemma Inv_run (evs : list (Event num)) (st : State num) :
  Inv st -> Inv (fst (run evs st)).
Proof.
  revert st. induction evs as [|ev evs IH]; intros st HI; [exact HI|].
  cbn. pose proof (Inv_step st ev HI) as H1.
  destruct (step st ev) as [st1 out1]. cbn in H1.
  specialize (IH st1 H1). destruct (run evs st1) as [st2 out2]. exact IH.
Qed.

Lemma Inv_reachable (st : State num) : reachable st -> Inv st.
Proof.
  intros (l & e & d & evs & ->). apply Inv_run, Inv_mount.
Qed.

Lemma run_app (evs1 evs2 : list (Event num)) (st : State num) :
  run (evs1 ++ evs2)%list st =
  let '(st1, out1) := run evs1 st in
  let '(st2, out2) := run evs2 st1 in
  (st2, (out1 ++ out2)%list).
Proof.
  revert st. induction evs1 as [|ev evs1 IH]; intros st; cbn.
  - destruct (run evs2 st); reflexivity.
  - destruct (step st ev) as [s1 o1]. rewrite IH.
    destruct (run evs1 s1) as [s2 o2]. destruct (run evs2 s2) as [s3 o3].
    rewrite app_assoc. reflexivity.
Qed.

Lemma reachable_step (st : State num) (ev : Event num) :
  reachable st -> reachable (fst (step st ev)).
Proof.
  intros (l & e & d & evs & ->). exists l, e, d, (evs ++ [ev])%list.
  rewrite run_app. destruct (run evs (mount l e d)) as [s1 o1]. cbn.
  destruct (step s1 ev) as [s2 o2]. reflexivity.
Qed.

(** ** Opening and closing *)

Lemma setActive_open (st : State num) (o : Obj num) :
  sameObj (active st) (Some o) = false ->
  setActive (Some o) st =
  (setQty 1
     (setSize (defaultSize (val o))
        (setColor (defaultColor (val o))
           (setActiveImg 0
              (set_overflow "hidden"
                 (activeCleanup (set_active (Some o) st)))))),
   [DeferFocusClose]).
Proof. unfold setActive. intros ->. reflexivity. Qed.

Lemma setActive_close (st : State num) :
  active (fst (setActive None st)) = None /\
  snd (setActive None st) = [].
Proof.
  unfold setActive. destruct (active st) as [o|] eqn:Ho; cbn.
  - split; reflexivity.
  - split; [exact Ho | reflexivity].
Qed.

Lemma setActive_Some_active (st : State num) (o : Obj num) :
  active (fst (setActive (Some o) st)) <> None.
Proof.
  unfold setActive. destruct (active st) as [a|] eqn:Ha; cbn.
  - destruct (_ && _); cbn; congruence.
  - discriminate.
Qed.

(** C6. Opening the modal on an item, from any state whatever (closed, or
    open on another item, with any selection left behind), puts the image
    index at 0, the color at the item's first color option, the size at its
    first size option and the quantity at 1.  For a card of the grid these
    are the first entries of the fixed option lists.  The same holds after
    any sequence of events, in particular after the modal was open on
    another item. *)
Theorem modal_open_resets_selection :
  (forall (st : State num) (o : Obj num),
     sameObj (active st) (Some o) = false ->
     let st' := fst (setActive (Some o) st) in
     active st' = Some o /\
     activeImg st' = 0 /\
     color st' = option_map Color.name (first_of (colors (val o))) /\
     size st' = first_of (sizes (val o)) /\
     qty st' = 1) /\
  (forall (st : State num) (evs : list (Event num)) (i : nat) (o : Obj num),
     let st1 := fst (run evs st) in
     rendered st1 = true ->
     nth_error (itemObjs st1) i = Some o ->
     sameObj (active st1) (Some o) = false ->
     let st' := fst (run (evs ++ [ClickCard i]) st) in
     active st' = Some o /\
     activeImg st' = 0 /\
     color st' = Some "Navy" /\
     size st' = Some "S" /\
     qty st' = 1) /\
  (forall (st : State num) (o : Obj num),
     active st = None -> sameObj (active st) (Some o) = false).
Proof.
  split; [|split].
  - intros st o Hs st'. subst st'. rewrite (setActive_open st o Hs). cbn.
    repeat split; reflexivity.
  - intros st evs i o st1 Hr Hn Hs st'. subst st'.
    rewrite run_app. fold st1.
    destruct (run evs st) as [s1 o1] eqn:Hrun. cbn in st1. subst st1.
    cbn [run]. unfold step. rewrite (rendered_mounted _ Hr). cbn [negb].
    rewrite Hr, Hn, (setActive_open s1 o Hs). cbn.
    apply itemObjs_nth in Hn. destruct Hn as [_ Hn].
    unfold items in Hn. rewrite nth_error_map in Hn.
    destruct (nth_error (firstn 8 (nullish_or (data s1) [])) i) as [p|];
      [|discriminate].
    cbn [option_map] in Hn. inversion Hn as [Hv].
    destruct (toSaleItem_defaults p) as [Hc Hz].
    rewrite Hc, Hz. repeat split; reflexivity.
  - intros st o ->. reflexivity.
Qed.

(** The lock follows [active].  In every state the component can reach,
    the document's overflow is "hidden" exactly when an item is active and
    the component is mounted.  Clicking a card locks the scroll; the close
    button and the overlay when they are on screen, the Escape key and
    unmounting all leave the overflow empty, with no item active. *)
Theorem scroll_lock_tracks_modal (st : State num) :
  reachable st ->
  (mounted st = true -> (overflow st = "hidden" <-> active st <> None)) /\
  (mounted st = false -> overflow st = "") /\
  (forall (i : nat) (o : Obj num),
     rendered st = true -> nth_error (itemObjs st) i = Some o ->
     let st' := fst (step st (ClickCard i)) in
     active st' <> None /\ overflow st' = "hidden") /\
  (forall ev : Event num,
     mounted st = true ->
     ev = KeyEscape \/
     (modalShown st <> None /\ (ev = ClickClose \/ ev = ClickOverlay)) ->
     let st' := fst (step st ev) in
     active st' = None /\ overflow st' = "") /\
  overflow (fst (step st Unmount)) = "".
Proof.
  intros Hr. pose proof (Inv_reachable st Hr) as (_ & Hs & _).
  unfold scrollLockOk in Hs.
  split; [|split; [|split; [|split]]].
  - intros Hm. rewrite Hm in Hs. rewrite Hs.
    destruct (active st); split; congruence.
  - intros Hm. rewrite Hm in Hs. exact Hs.
  - intros i o Hrd Hn st'.
    assert (Ha : active st' <> None).
    { subst st'. unfold step. rewrite (rendered_mounted _ Hrd). cbn [negb].
      rewrite Hrd, Hn. apply setActive_Some_active. }
    split; [exact Ha|].
    pose proof (Inv_reachable st' (reachable_step st (ClickCard i) Hr))
      as (_ & Hs' & _).
    unfold scrollLockOk in Hs'.
    assert (Hm' : mounted st' = true).
    { subst st'. unfold step. rewrite (rendered_mounted _ Hrd). cbn [negb].
      rewrite Hrd, Hn, setActive_mounted. apply rendered_mounted, Hrd. }
    rewrite Hm' in Hs'. rewrite Hs'. destruct (active st'); congruence.
  - intros ev Hm Hev st'.
    assert (Hst : st' = fst (setActive None st)).
    { subst st'. unfold step. rewrite Hm. cbn [negb].
      destruct Hev as [-> | [Hshown [-> | ->]]]; try reflexivity;
        unfold inModal; destruct (modalShown st); congruence. }
    assert (Ha : active st' = None).
    { rewrite Hst. apply setActive_close. }
    split; [exact Ha|].
    pose proof (Inv_reachable st' (reachable_step st ev Hr)) as (_ & Hs' & _).
    unfold scrollLockOk in Hs'. rewrite Ha in Hs'. rewrite Hs'.
    destruct (mounted st'); reflexivity.
  - unfold step. destruct (mounted st) eqn:Hm; cbn.
    + reflexivity.
    + exact Hs.
Qed.

(** ** Reading a quantity *)






(** ** Quantity *)


(** ** Add to Cart *)

Lemma color_name_truthy (c : string) :
  In c (map Color.name DEF_COLORS) -> c <> "" /\ truthy_str (Some c) = Some c.
Proof.
  cbn. intros [<- | [<- | [<- | [<- | []]]]]; split; (discriminate || reflexivity).
Qed.

Lemma size_truthy (z : string) :
  In z DEF_SIZES -> z <> "" /\ truthy_str (Some z) = Some z.
Proof.
  cbn. intros [<- | [<- | [<- | [<- | [<- | []]]]]];
    split; (discriminate || reflexivity).
Qed.

Lemma addDisabled_false (a : SaleItem num) :
  addDisabled a = false <-> exists n, stock a = Some n /\ 0 < n.
Proof.
  unfold addDisabled. destruct (stock a) as [n|].
  - split.
    + intros Hd. exists n. split; [reflexivity|].
      apply orb_false_iff in Hd. destruct Hd as [_ Hd].
      apply Z.leb_gt in Hd. exact Hd.
    + intros (m & Hm & Hpos). inversion Hm. subst m.
      apply orb_false_iff. split; [apply Z.eqb_neq | apply Z.leb_gt]; lia.
  - split; [discriminate|]. intros (m & Hm & _). discriminate.
Qed.

(** With the invariant, the handler never takes the validation branch. *)
Lemma onAddToCart_selected (st : State num) (o : Obj num) :
  Inv st -> active st = Some o ->
  exists c z,
    color st = Some c /\ size st = Some z /\ c <> "" /\ z <> "" /\
    onAddToCart (val o) st =
      (set_overflow "" (activeCleanup (set_active None st)),
       [DispatchCartAdd {| detail_item := val o; detail_color := c;
                           detail_size := z; detail_qty := qty st |}]).
Proof.
  intros (_ & _ & Hsel) Ho.
  destruct (Hsel o Ho) as (_ & (c & Hc & Hcin) & (z & Hz & Hzin)).
  destruct (color_name_truthy c Hcin) as [Hc0 Hct].
  destruct (size_truthy z Hzin) as [Hz0 Hzt].
  exists c, z. repeat (split; [assumption|]).
  unfold onAddToCart. rewrite Hc, Hz, Hct, Hzt.
  unfold setActive. rewrite Ho. reflexivity.
Qed.

(** C1. With the modal open on an item whose stock is known and positive:
    when the color or the size is null, Add to Cart shows the alert, emits
    nothing else and leaves the state as it was (the modal stays open); when
    both are set, in a state the component can reach, it dispatches exactly
    one [cart:add] event carrying the item, that color, that size and the
    quantity, and no item is active afterwards (the modal is closed). *)
Theorem add_to_cart_confirm (st : State num) (a : SaleItem num) (n : Z) :
  modalShown st = Some a ->
  stock a = Some n -> 0 < n ->
  ((color st = None \/ size st = None) ->
     onAddToCart a st = (st, [Alert ALERT_MSG]) /\
     step st ClickAddToCart = (st, [Alert ALERT_MSG])) /\
  (forall c z : string,
     reachable st -> color st = Some c -> size st = Some z ->
     exists st',
       step st ClickAddToCart =
         (st', [DispatchCartAdd {| detail_item := a; detail_color := c;
                                   detail_size := z; detail_qty := qty st |}]) /\
       active st' = None /\
       modalShown st' = None).
Proof.
  intros Hshown Hstock Hpos.
  assert (Hen : addDisabled a = false).
  { apply addDisabled_false. exists n. auto. }
  destruct (modalShown_active st a Hshown) as (Hr & o & Ho & Hv).
  assert (Hstep : step st ClickAddToCart = onAddToCart a st).
  { unfold step, inModal. rewrite (rendered_mounted _ Hr), Hshown, Hen.
    reflexivity. }
  split.
  - intros Hnull.
    assert (Hh : onAddToCart a st = (st, [Alert ALERT_MSG])).
    { unfold onAddToCart. destruct Hnull as [-> | ->]; cbn;
        [reflexivity | destruct (truthy_str (color st)); reflexivity]. }
    split; [exact Hh | rewrite Hstep; exact Hh].
  - intros c z Hreach Hc Hz.
    destruct (onAddToCart_selected st o (Inv_reachable st Hreach) Ho)
      as (c' & z' & Hc' & Hz' & _ & _ & Hon).
    assert (c' = c) by congruence. assert (z' = z) by congruence. subst c' z'.
    rewrite Hv in Hon.
    exists (set_overflow "" (activeCleanup (set_active None st))).
    rewrite Hstep. split; [exact Hon|]. split; [reflexivity|].
    unfold modalShown. cbn. destruct (rendered _); reflexivity.
Qed.

Lemma setActive_no_alert (v : option (Obj num)) (st : State num) (msg : string) :
  ~ In (Alert msg) (snd (setActive v st)).
Proof.
  unfold setActive. destruct (sameObj (active st) v); cbn; [tauto|].
  unfold activeEffect. cbn. destruct v; cbn; [|tauto].
  intros [Hf | []]. discriminate.
Qed.

Lemma step_no_alert (st : State num) (ev : Event num) (msg : string) :
  Inv st -> ~ In (Alert msg) (snd (step st ev)).
Proof.
  intros HI. unfold step.
  destruct (mounted st) eqn:Hm; cbn [negb]; [|cbn; tauto].
  assert (Hnil : forall s : State num, ~ In (Alert msg) (snd (s, @nil (Output num)))).
  { intros s. cbn. tauto. }
  destruct ev; cbv beta iota; unfold inModal.
  - apply Hnil.
  - destruct (data st), d; apply Hnil.
  - destruct (rendered st); [|apply Hnil].
    destruct (nth_error (itemObjs st) i);
      [apply setActive_no_alert | apply Hnil].
  - destruct (modalShown st); [apply setActive_no_alert | apply Hnil].
  - destruct (modalShown st); [apply setActive_no_alert | apply Hnil].
  - apply setActive_no_alert.
  - destruct (modalShown st); [|apply Hnil].
    destruct (_ <? _)%nat; apply Hnil.
  - destruct (modalShown st); [|apply Hnil].
    destruct (nth_error _ i); apply Hnil.
  - destruct (modalShown st); [|apply Hnil].
    destruct (nth_error _ i); apply Hnil.
  - destruct (modalShown st); apply Hnil.
  - destruct (modalShown st); apply Hnil.
  - destruct (modalShown st); apply Hnil.
  - destruct (modalShown st) as [a|] eqn:Ha; [|apply Hnil].
    destruct (addDisabled a); [apply Hnil|].
    destruct (modalShown_active st a Ha) as (_ & o & Ho & Hv). subst a.
    destruct (onAddToCart_selected st o HI Ho) as (c & z & _ & _ & _ & _ & ->).
    cbn. intros [Hf | []]. discriminate.
  - apply Hnil.
Qed.

Lemma run_no_alert (evs : list (Event num)) (st : State num) (msg : string) :
  Inv st -> ~ In (Alert msg) (snd (run evs st)).
Proof.
  revert st. induction evs as [|ev evs IH]; intros st HI; cbn; [tauto|].
  pose proof (Inv_step st ev HI) as H1.
  pose proof (step_no_alert st ev msg HI) as H2.
  destruct (step st ev) as [st1 out1]. cbn in H1, H2.
  specialize (IH st1 H1). destruct (run evs st1) as [st2 out2]. cbn in *.
  intros Hin. apply in_app_or in Hin. tauto.
Qed.

(** C10. Every item built by [toSaleItem] carries the fixed, non-empty color
    and size lists.  Hence opening the modal on such an item selects "Navy"
    and "S"; in every reachable state with an item active the color and the
    size are set to non-empty strings; and in no run of the component does
    Add to Cart ever show the validation alert. *)
Theorem default_options_never_missing :
  (forall p : Product.t num,
     colors (toSaleItem p) = Some DEF_COLORS /\
     sizes (toSaleItem p) = Some DEF_SIZES) /\
  DEF_COLORS <> [] /\
  DEF_SIZES <> [] /\
  (forall (st : State num) (o : Obj num) (p : Product.t num),
     val o = toSaleItem p ->
     sameObj (active st) (Some o) = false ->
     color (fst (setActive (Some o) st)) = Some "Navy" /\
     size (fst (setActive (Some o) st)) = Some "S") /\
  (forall st : State num,
     reachable st -> active st <> None ->
     exists c z, color st = Some c /\ c <> "" /\ size st = Some z /\ z <> "") /\
  (forall (l e : bool) (d : option (list (Product.t num)))
          (evs : list (Event num)) (msg : string),
     ~ In (Alert msg) (snd (run evs (mount l e d)))).
Proof.
  split; [exact toSaleItem_options|].
  split; [discriminate|]. split; [discriminate|].
  split; [|split].
  - intros st o p Hv Hs. rewrite (setActive_open st o Hs). cbn.
    rewrite Hv. apply toSaleItem_defaults.
  - intros st Hr Ha. destruct (active st) as [o|] eqn:Ho; [|congruence].
    destruct (onAddToCart_selected st o (Inv_reachable st Hr) Ho)
      as (c & z & Hc & Hz & Hc0 & Hz0 & _).
    exists c, z. auto.
  - intros l e d evs msg. apply run_no_alert, Inv_mount.
Qed.

End WithNumbers.

(** ** The theorems at work on the sample shop *)

Lemma opened_reachable : reachable Samples.opened.
Proof.
  exists false, false, (Some [Samples.teeA; Samples.teeB]),
    [ClickCard 0]. reflexivity.
Qed.

Lemma discount_badge_witness :
  was (toSaleItem Samples.teeA) = Some (200000 # 1)%Q /\
  gridBadge (toSaleItem Samples.teeA) = Some (25 # 1)%Q.
Proof.
  split; [reflexivity|].
  pose proof (proj2 (proj2 (proj2 (discount_badge Samples.teeA)))
                (200000 # 1)%Q) as Hb.
  cbv zeta in Hb. rewrite Hb; reflexivity.
Defined.

Lemma add_to_cart_confirm_witness :
  step Samples.unselected ClickAddToCart =
    (Samples.unselected, [Alert ALERT_MSG]) /\
  exists st',
    step Samples.opened ClickAddToCart =
      (st', [DispatchCartAdd
               {| detail_item := toSaleItem Samples.teeA;
                  detail_color := "Navy"; detail_size := "S";
                  detail_qty := 1 |}]) /\
    active st' = None /\ modalShown st' = None.
Proof.
  split.
  - assert (Hshown : modalShown Samples.unselected
                     = Some (toSaleItem Samples.teeA)) by reflexivity.
    assert (Hstock : stock (toSaleItem Samples.teeA) = Some 3) by reflexivity.
    assert (Hpos : 0 < 3) by reflexivity.
    apply (add_to_cart_confirm _ _ _ Hshown Hstock Hpos).
    left. reflexivity.
  - assert (Hshown : modalShown Samples.opened
                     = Some (toSaleItem Samples.teeA)) by reflexivity.
    assert (Hstock : stock (toSaleItem Samples.teeA) = Some 3) by reflexivity.
    assert (Hpos : 0 < 3) by reflexivity.
    apply (proj2 (add_to_cart_confirm _ _ _ Hshown Hstock Hpos) "Navy" "S").
    + exact opened_reachable.
    + reflexivity.
    + reflexivity.
Defined.

Lemma modal_open_resets_selection_witness :
  let st' := fst (run (Samples.browsing ++ [ClickCard 1]) Samples.shop) in
  option_map val (active st') = Some (toSaleItem Samples.teeB) /\
  activeImg st' = 0 /\ color st' = Some "Navy" /\ size st' = Some "S" /\
  qty st' = 1.
Proof.
  pose proof (proj1 (proj2 modal_open_resets_selection)
                Samples.shop Samples.browsing 1%nat
                {| oid := (0%nat, 1%nat); val := toSaleItem Samples.teeB |})
    as Hopen.
  cbv zeta in Hopen.
  destruct Hopen as (Ha & Hrest); [reflexivity | reflexivity | reflexivity |].
  cbv zeta. rewrite Ha. split; [reflexivity | exact Hrest].
Defined.

Lemma scroll_lock_tracks_modal_witness :
  overflow Samples.opened = "hidden" /\
  overflow (fst (step Samples.opened KeyEscape)) = "" /\
  overflow (fst (step Samples.opened Unmount)) = "".
Proof.
  pose proof (scroll_lock_tracks_modal Samples.opened opened_reachable)
    as (Hlock & _ & _ & Hexit & Hun).
  split; [|split].
  - apply Hlock; [reflexivity | discriminate].
  - apply (Hexit KeyEscape); [reflexivity | left; reflexivity].
  - exact Hun.
Defined.



(** C8. The scroll lock outlives the dialog.  With the modal open on the
    first card, when the query then reports an error the component returns
    the error section: no dialog is shown, the close button and the overlay
    are not there to be clicked, and the document's overflow is still
    "hidden".  Only Escape (or unmounting) releases it. *)
Theorem scroll_lock_left_on_without_dialog :
  let st := fst (run [ClickCard 0; QueryFlags false true] Samples.shop) in
  reachable st /\
  mounted st = true /\
  modalShown st = None /\
  overflow st = "hidden" /\
  step st ClickClose = (st, []) /\
  step st ClickOverlay = (st, []) /\
  overflow (fst (step st KeyEscape)) = "".
Proof.
  cbv zeta. split.
  - exists false, false, (Some [Samples.teeA; Samples.teeB]),
      [ClickCard 0; QueryFlags false true]. reflexivity.
  - repeat split.
Qed.

Lemma default_options_never_missing_witness :
  exists c z,
    color Samples.opened = Some c /\ c <> "" /\
    size Samples.opened = Some z /\ z <> "".
Proof.
  apply (proj1 (proj2 (proj2 (proj2 (proj2 (@default_options_never_missing Q _)))))
           Samples.opened).
  - exact opened_reachable.
  - discriminate.
Defined.

End SaleProofs.

(* ================================================================== *)
(** * Properties of the carousels *)

Module CarouselProofs.

Import Carousel.

(** ** Index arithmetic *)

Lemma rem_shift (x n : Z) : 0 <= x -> 0 < n -> Z.rem (x + n) n = Z.rem x n.
Proof.
  intros Hx Hn. rewrite !Z.rem_mod_nonneg by lia.
  replace (x + n) with (x + 1 * n) by lia. apply Z_mod_plus_full.
Qed.

(** One step forward from [i], as [go(1)] computes it. *)
Lemma wrap_next (i n : Z) :
  0 <= i < n ->
  Z.rem (i + 1 + n) n = if i + 1 <? n then i + 1 else 0.
Proof.
  intros Hi. rewrite rem_shift by lia.
  destruct (Z.ltb_spec (i + 1) n).
  - apply Z.rem_small. lia.
  - replace (i + 1) with (0 + n) by lia. rewrite rem_shift by lia.
    apply Z.rem_small. lia.
Qed.

(** One step back from [i], as [go(-1)] computes it. *)
Lemma wrap_prev (i n : Z) :
  0 <= i < n ->
  Z.rem (i + -1 + n) n = if i =? 0 then n - 1 else i - 1.
Proof.
  intros Hi. destruct (Z.eqb_spec i 0) as [-> | Hne].
  - replace (0 + -1 + n) with (n - 1) by lia. apply Z.rem_small. lia.
  - replace (i + -1 + n) with (i - 1 + n) by lia. rewrite rem_shift by lia.
    apply Z.rem_small. lia.
Qed.

Lemma wrap_tick (i n : Z) :
  0 <= i < n -> 0 <= Z.rem (i + 1) n < n.
Proof. intros Hi. apply Z.rem_bound_pos; lia. Qed.

Lemma next_prev (i n : Z) :
  1 < n -> 0 <= i < n ->
  Z.rem (Z.rem (i + 1 + n) n + -1 + n) n = i /\
  Z.rem (Z.rem (i + -1 + n) n + 1 + n) n = i.
Proof.
  intros Hn Hi. split.
  - rewrite (wrap_next i n Hi). destruct (Z.ltb_spec (i + 1) n).
    + rewrite wrap_prev by lia. destruct (Z.eqb_spec (i + 1) 0); lia.
    + rewrite wrap_prev by lia. cbn. lia.
  - rewrite (wrap_prev i n Hi). destruct (Z.eqb_spec i 0).
    + rewrite wrap_next by lia. destruct (Z.ltb_spec (n - 1 + 1) n); lia.
    + rewrite wrap_next by lia. destruct (Z.ltb_spec (i - 1 + 1) n); lia.
Qed.

(** ** The gallery variant *)

Lemma gallery_autoplay_keeps (s : Gallery.State) :
  Gallery.len (Gallery.autoplayEffect (Gallery.autoplayCleanup s)) = Gallery.len s /\
  Gallery.index (Gallery.autoplayEffect (Gallery.autoplayCleanup s)) = Gallery.index s.
Proof.
  unfold Gallery.autoplayEffect.
  destruct (Gallery.paused _ || _); split; reflexivity.
Qed.

Lemma gallery_commit_len (old new : Gallery.State) :
  Gallery.len (Gallery.commit old new) = Gallery.len new.
Proof.
  unfold Gallery.commit.
  destruct (negb (Gallery.len old =? Gallery.len new)); cbn [orb].
  - rewrite (proj1 (gallery_autoplay_keeps _)). reflexivity.
  - destruct (negb _); [|reflexivity].
    rewrite (proj1 (gallery_autoplay_keeps _)). reflexivity.
Qed.

Lemma gallery_commit_index (old new : Gallery.State) :
  Gallery.len old = Gallery.len new ->
  Gallery.index (Gallery.commit old new) = Gallery.index new.
Proof.
  intros Hl. unfold Gallery.commit. rewrite Hl, Z.eqb_refl. cbn [negb orb].
  destruct (negb _); [apply gallery_autoplay_keeps | reflexivity].
Qed.

Lemma gallery_step_keeps (st : Gallery.State) (ev : Gallery.Event) :
  Gallery.keepsItems ev = true ->
  Gallery.len (Gallery.step st ev) = Gallery.len st /\
  (0 <= Gallery.index st < Gallery.len st ->
   0 <= Gallery.index (Gallery.step st ev) < Gallery.len st).
Proof.
  intros Hk. unfold Gallery.step.
  destruct (negb (Gallery.mounted st)); [split; auto|].
  destruct ev; try discriminate.
  - destruct (Gallery.placeholder st); [split; auto|].
    rewrite gallery_commit_len, gallery_commit_index by reflexivity. auto.
  - destruct (Gallery.placeholder st); [split; auto|].
    rewrite gallery_commit_len, gallery_commit_index by reflexivity. auto.
  - destruct (Gallery.timer st); [|split; auto].
    split; [reflexivity|]. intros Hi. cbn. apply wrap_tick, Hi.
  - destruct (Gallery.arrowsShown st); [|split; auto].
    split; [reflexivity|]. intros Hi. cbn. apply Z.rem_bound_pos; lia.
  - destruct (Gallery.arrowsShown st); [|split; auto].
    split; [reflexivity|]. intros Hi. cbn. apply Z.rem_bound_pos; lia.
  - destruct (Gallery.dotsShown st && _) eqn:Hd; [|split; auto].
    split; [reflexivity|]. intros Hi. cbn.
    apply andb_true_iff in Hd. destruct Hd as [_ Hd].
    apply Z.ltb_lt in Hd. lia.
  - split; [reflexivity | auto].
Qed.

Lemma gallery_run_keeps (evs : list Gallery.Event) (st : Gallery.State) :
  forallb Gallery.keepsItems evs = true ->
  0 <= Gallery.index st < Gallery.len st ->
  Gallery.len (Gallery.run evs st) = Gallery.len st /\
  0 <= Gallery.index (Gallery.run evs st) < Gallery.len st.
Proof.
  revert st. induction evs as [|ev evs IH]; intros st Hk Hi; [auto|].
  cbn in Hk. apply andb_true_iff in Hk. destruct Hk as [Hev Hk].
  destruct (gallery_step_keeps st ev Hev) as [Hl Hr].
  specialize (Hr Hi). cbn [Gallery.run fold_left].
  destruct (IH (Gallery.step st ev) Hk) as [Hl' Hr']; [rewrite Hl; exact Hr|].
  fold (Gallery.run evs (Gallery.step st ev)).
  rewrite Hl in Hl', Hr'. auto.
Qed.

Lemma gallery_autoplay_timerOk (s : Gallery.State) :
  Gallery.mounted s = true ->
  Gallery.timerOk (Gallery.autoplayEffect (Gallery.autoplayCleanup s)).
Proof.
  intros Hm. unfold Gallery.timerOk, Gallery.autoplayEffect.
  change (Gallery.paused (Gallery.autoplayCleanup s)) with (Gallery.paused s).
  change (Gallery.len (Gallery.autoplayCleanup s)) with (Gallery.len s).
  destruct (Gallery.paused s) eqn:Hp; cbn [orb].
  - change (false = Gallery.mounted s && negb (Gallery.paused s)
                    && (1 <? Gallery.len s)).
    rewrite Hp. cbn [negb]. rewrite andb_false_r. reflexivity.
  - destruct (Z.leb_spec (Gallery.len s) 1) as [Hle | Hgt].
    + change (false = Gallery.mounted s && negb (Gallery.paused s)
                      && (1 <? Gallery.len s)).
      apply Z.ltb_ge in Hle. rewrite Hle, andb_false_r. reflexivity.
    + change (true = Gallery.mounted s && negb (Gallery.paused s)
                     && (1 <? Gallery.len s)).
      apply Z.ltb_lt in Hgt. rewrite Hm, Hp, Hgt. reflexivity.
Qed.

Lemma gallery_timerOk_mount (p : Gallery.Props) (l e : bool)
    (d : option (list Gallery.GaleriItem)) :
  Gallery.timerOk (Gallery.mount p l e d).
Proof.
  change (Gallery.mount p l e d)
    with (Gallery.autoplayEffect (Gallery.autoplayCleanup
            (Gallery.resetEffect
               {| Gallery.props := p; Gallery.mounted := true;
                  Gallery.isLoading := l; Gallery.isError := e;
                  Gallery.data := d; Gallery.index := 0;
                  Gallery.paused := false; Gallery.timer := false |}))).
  apply gallery_autoplay_timerOk. reflexivity.
Qed.

Lemma gallery_commit_timerOk (old new : Gallery.State) :
  Gallery.timerOk old ->
  Gallery.mounted old = true ->
  Gallery.mounted new = true ->
  Gallery.timer new = Gallery.timer old ->
  Gallery.timerOk (Gallery.commit old new).
Proof.
  intros Hok Hmo Hmn Ht. unfold Gallery.commit.
  destruct (Z.eqb_spec (Gallery.len old) (Gallery.len new)) as [Hl | Hl];
    cbn [negb orb].
  - destruct (Bool.eqb (Gallery.paused old) (Gallery.paused new)) eqn:Hp;
      cbn [negb].
    + apply Bool.eqb_prop in Hp. unfold Gallery.timerOk in *.
      rewrite Ht, Hok, Hmo, Hmn, Hl, Hp. reflexivity.
    + apply gallery_autoplay_timerOk, Hmn.
  - apply gallery_autoplay_timerOk, Hmn.
Qed.

Lemma gallery_step_timerOk (st : Gallery.State) (ev : Gallery.Event) :
  Gallery.timerOk st -> Gallery.timerOk (Gallery.step st ev).
Proof.
  intros Hok. unfold Gallery.step.
  destruct (Gallery.mounted st) eqn:Hm; cbn [negb]; [|exact Hok].
  destruct ev.
  - apply gallery_commit_timerOk; auto.
  - destruct (Gallery.placeholder st); [exact Hok|].
    apply gallery_commit_timerOk; auto.
  - destruct (Gallery.placeholder st); [exact Hok|].
    apply gallery_commit_timerOk; auto.
  - destruct (Gallery.timer st) eqn:Ht; exact Hok.
  - destruct (Gallery.arrowsShown st); exact Hok.
  - destruct (Gallery.arrowsShown st); exact Hok.
  - destruct (_ && _); exact Hok.
  - reflexivity.
Qed.

Lemma gallery_run_timerOk (evs : list Gallery.Event) (st : Gallery.State) :
  Gallery.timerOk st -> Gallery.timerOk (Gallery.run evs st).
Proof.
  revert st. induction evs as [|ev evs IH]; intros st Hok; [exact Hok|].
  apply (IH (Gallery.step st ev)), gallery_step_timerOk, Hok.
Qed.

(** With at most one item the gallery carousel shows no arrows and no
    dots, has no interval armed, and a tick changes nothing. *)
Lemma gallery_short_is_still (p : Gallery.Props) (l e : bool)
    (d : option (list Gallery.GaleriItem)) (evs : list Gallery.Event) :
  let st := Gallery.run evs (Gallery.mount p l e d) in
  Gallery.len st <= 1 ->
  Gallery.arrowsShown st = false /\
  Gallery.dotsShown st = false /\
  Gallery.timer st = false /\
  Gallery.step st Gallery.Tick = st.
Proof.
  intros st Hlen.
  pose proof (gallery_run_timerOk evs _ (gallery_timerOk_mount p l e d)) as Hok.
  fold st in Hok. unfold Gallery.timerOk in Hok.
  apply Z.ltb_ge in Hlen.
  assert (Ht : Gallery.timer st = false).
  { rewrite Hok, Hlen. apply andb_false_r. }
  unfold Gallery.arrowsShown, Gallery.dotsShown, Gallery.step.
  rewrite Hlen, Ht, !andb_false_r.
  repeat split. destruct (negb (Gallery.mounted st)); reflexivity.
Qed.

(** When a query result changes the number of items, the gallery carousel
    goes back to the first slide. *)
Lemma gallery_resets_index (st : Gallery.State) (l e : bool)
    (d : option (list Gallery.GaleriItem)) :
  Gallery.mounted st = true ->
  Gallery.len (Gallery.set_query l e d st) <> Gallery.len st ->
  Gallery.index (Gallery.step st (Gallery.Query l e d)) = 0.
Proof.
  intros Hm Hl. unfold Gallery.step. rewrite Hm. cbn [negb].
  unfold Gallery.commit.
  destruct (Z.eqb_spec (Gallery.len st) (Gallery.len (Gallery.set_query l e d st)));
    [congruence|].
  cbn [negb orb]. rewrite (proj2 (gallery_autoplay_keeps _)). reflexivity.
Qed.

(** ** The static variant *)

Lemma static_autoplay_keeps (s : Static.State) :
  Static.len (Static.autoplayEffect (Static.autoplayCleanup s)) = Static.len s /\
  Static.index (Static.autoplayEffect (Static.autoplayCleanup s)) = Static.index s.
Proof.
  unfold Static.autoplayEffect.
  destruct (Static.paused _); split; reflexivity.
Qed.

Lemma static_commit_keeps (old new : Static.State) :
  Static.len (Static.commit old new) = Static.len new /\
  Static.index (Static.commit old new) = Static.index new.
Proof.
  unfold Static.commit.
  destruct (negb _ || negb _); [apply static_autoplay_keeps | auto].
Qed.

Lemma static_step_keeps (st : Static.State) (ev : Static.Event) :
  Static.keepsItems ev = true ->
  Static.len (Static.step st ev) = Static.len st /\
  (0 <= Static.index st < Static.len st ->
   0 <= Static.index (Static.step st ev) < Static.len st).
Proof.
  intros Hk. unfold Static.step.
  destruct (negb (Static.mounted st)); [split; auto|].
  destruct ev; try discriminate.
  - destruct (static_commit_keeps st (Static.setPaused true st)) as [-> ->].
    auto.
  - destruct (static_commit_keeps st (Static.setPaused false st)) as [-> ->].
    auto.
  - destruct (Static.timer st); [|split; auto].
    split; [reflexivity|]. intros Hi. cbn. apply wrap_tick, Hi.
  - destruct (Static.arrowsShown st); [|split; auto].
    split; [reflexivity|]. intros Hi. cbn. apply Z.rem_bound_pos; lia.
  - destruct (Static.arrowsShown st); [|split; auto].
    split; [reflexivity|]. intros Hi. cbn. apply Z.rem_bound_pos; lia.
  - destruct (Static.dotsShown st && _) eqn:Hd; [|split; auto].
    split; [reflexivity|]. intros Hi. cbn.
    apply andb_true_iff in Hd. destruct Hd as [_ Hd].
    apply Z.ltb_lt in Hd. lia.
  - split; [reflexivity | auto].
Qed.

Lemma static_run_keeps (evs : list Static.Event) (st : Static.State) :
  forallb Static.keepsItems evs = true ->
  0 <= Static.index st < Static.len st ->
  Static.len (Static.run evs st) = Static.len st /\
  0 <= Static.index (Static.run evs st) < Static.len st.
Proof.
  revert st. induction evs as [|ev evs IH]; intros st Hk Hi; [auto|].
  cbn in Hk. apply andb_true_iff in Hk. destruct Hk as [Hev Hk].
  destruct (static_step_keeps st ev Hev) as [Hl Hr].
  specialize (Hr Hi). cbn [Static.run fold_left].
  destruct (IH (Static.step st ev) Hk) as [Hl' Hr']; [rewrite Hl; exact Hr|].
  fold (Static.run evs (Static.step st ev)).
  rewrite Hl in Hl', Hr'. auto.
Qed.

(** ** Navigation, controls and resets *)

(** C4. In either carousel with more than one item and the index in range:
    next then previous, and previous then next, come back to the same
    index (the arrows, when shown, do exactly [go 1] and [go (-1)]); and
    after any sequence of events that leaves the items alone (ticks, arrows,
    dots, hovering) the index is still in [0, N). *)
Theorem carousel_navigation :
  (forall st : Gallery.State,
     1 < Gallery.len st ->
     0 <= Gallery.index st < Gallery.len st ->
     Gallery.index (Gallery.go (-1) (Gallery.go 1 st)) = Gallery.index st /\
     Gallery.index (Gallery.go 1 (Gallery.go (-1) st)) = Gallery.index st /\
     (Gallery.mounted st = true -> Gallery.arrowsShown st = true ->
      Gallery.step st Gallery.ClickNext = Gallery.go 1 st /\
      Gallery.step st Gallery.ClickPrev = Gallery.go (-1) st) /\
     (forall evs : list Gallery.Event,
        forallb Gallery.keepsItems evs = true ->
        Gallery.len (Gallery.run evs st) = Gallery.len st /\
        0 <= Gallery.index (Gallery.run evs st) < Gallery.len st)) /\
  (forall st : Static.State,
     1 < Static.len st ->
     0 <= Static.index st < Static.len st ->
     Static.index (Static.go (-1) (Static.go 1 st)) = Static.index st /\
     Static.index (Static.go 1 (Static.go (-1) st)) = Static.index st /\
     (Static.mounted st = true -> Static.arrowsShown st = true ->
      Static.step st Static.ClickNext = Static.go 1 st /\
      Static.step st Static.ClickPrev = Static.go (-1) st) /\
     (forall evs : list Static.Event,
        forallb Static.keepsItems evs = true ->
        Static.len (Static.run evs st) = Static.len st /\
        0 <= Static.index (Static.run evs st) < Static.len st)).
Proof.
  split.
  - intros st Hn Hi.
    destruct (next_prev (Gallery.index st) (Gallery.len st) Hn Hi) as [H1 H2].
    split; [exact H1|]. split; [exact H2|]. split.
    + intros Hm Ha. unfold Gallery.step. rewrite Hm, Ha. split; reflexivity.
    + intros evs Hk. apply gallery_run_keeps; assumption.
  - intros st Hn Hi.
    destruct (next_prev (Static.index st) (Static.len st) Hn Hi) as [H1 H2].
    split; [exact H1|]. split; [exact H2|]. split.
    + intros Hm Ha. unfold Static.step. rewrite Hm, Ha. split; reflexivity.
    + intros evs Hk. apply static_run_keeps; assumption.
Qed.

Lemma carousel_navigation_witness :
  0 <= Gallery.index
         (Gallery.run [Gallery.ClickPrev; Gallery.Tick; Gallery.ClickDot 1;
                       Gallery.ClickNext; Gallery.ClickNext] Samples.gallery)
    < Gallery.len Samples.gallery /\
  Static.index (Static.go 1 (Static.go (-1) Samples.slides)) =
    Static.index Samples.slides.
Proof.
  destruct carousel_navigation as [HG HS].
  assert (Hn : 1 < 3) by reflexivity.
  assert (Hi : 0 <= 0 < 3) by (split; [discriminate | reflexivity]).
  split.
  - destruct (HG Samples.gallery Hn Hi) as (_ & _ & _ & Hrun).
    apply Hrun. reflexivity.
  - destruct (HS Samples.slides Hn Hi) as (_ & Hback & _). exact Hback.
Defined.

(** C3. The static carousel given a single image has one item, yet it shows
    the arrows and the dots and arms its interval, whose tick runs and
    leaves the index at 0. *)
Theorem static_single_item_keeps_controls :
  Static.len Samples.single = 1 /\
  Static.arrowsShown Samples.single = true /\
  Static.dotsShown Samples.single = true /\
  Static.timer Samples.single = true /\
  Static.step Samples.single Static.Tick = Static.tick Samples.single /\
  Static.index (Static.step Samples.single Static.Tick) = 0.
Proof. repeat split. Qed.

(** The static carousel has no effect on the number of items: new images
    never move the index. *)
Lemma static_never_resets (st : Static.State) (imgs : option (list string)) :
  Static.index (Static.step st (Static.SetImages imgs)) = Static.index st.
Proof.
  unfold Static.step. destruct (negb (Static.mounted st)); [reflexivity|].
  rewrite (proj2 (static_commit_keeps _ _)). reflexivity.
Qed.

(** C5. The static carousel over three images, taken to its last slide and
    then given two images, keeps the index 2, which is outside [0, 2). *)
Theorem static_keeps_index_on_new_images :
  let st := Static.run [Static.ClickPrev;
                        Static.SetImages (Some ["a.jpg"; "b.jpg"])]
              Samples.slides in
  Static.len st = 2 /\ Static.index st = 2.
Proof. split; reflexivity. Qed.

End CarouselProofs.

(* ================================================================== *)
(** * More about the grid and the modal *)

Module SaleExtras.

Import ProductSale.

Section WithNumbers.

Context {num : Type} `{JsNumber num}.

(** ** Images *)

(** X1. The image helper finds nothing exactly when the entry has no
    [image], no [thumbnail], no first element of [images] and no
    [original_url] on the first element of [media]; an [image] that is
    present wins over every other source, even when it is the empty string;
    and the item always gets an image, the placeholder taking the place of
    a missing one only. *)
Theorem getProductImage_sources (p : Product.t num) :
  (getProductImage p = None <->
     Product.image p = None /\
     Product.thumbnail p = None /\
     first_of (Product.images p) = None /\
     (forall m, first_of (Product.media p) = Some m ->
                Product.original_url m = None)) /\
  (forall u, Product.image p = Some u -> getProductImage p = Some u) /\
  (forall u, Product.image p = None -> Product.thumbnail p = Some u ->
             getProductImage p = Some u) /\
  (forall u, getProductImage p = Some u -> image (toSaleItem p) = Some u) /\
  (getProductImage p = None -> image (toSaleItem p) = Some FALLBACK_IMG).
Proof.
  assert (Himg : image (toSaleItem p)
                 = Some (nullish_or (getProductImage p) FALLBACK_IMG)).
  { unfold toSaleItem. destruct (getPrices p). reflexivity. }
  split; [|split; [|split; [|split]]].
  - unfold getProductImage.
    destruct (Product.image p) as [i|]; cbn.
    { split; [discriminate | intros (Hc & _); discriminate]. }
    destruct (Product.thumbnail p) as [t|]; cbn.
    { split; [discriminate | intros (_ & Hc & _); discriminate]. }
    destruct (first_of (Product.images p)) as [g|]; cbn.
    { split; [discriminate | intros (_ & _ & Hc & _); discriminate]. }
    destruct (first_of (Product.media p)) as [m|].
    + split.
      * intros Hm. repeat split. intros m' Hm'. inversion Hm'. subst. exact Hm.
      * intros (_ & _ & _ & Hm). apply Hm. reflexivity.
    + split; [|reflexivity]. intros _. repeat split. discriminate.
  - intros u Hu. unfold getProductImage. rewrite Hu. reflexivity.
  - intros u Hi Ht. unfold getProductImage. rewrite Hi, Ht. reflexivity.
  - intros u Hu. rewrite Himg, Hu. reflexivity.
  - intros Hn. rewrite Himg, Hn. reflexivity.
Qed.

(** The generic shape of an induction over a run. *)
Lemma run_invariant (P : State num -> Prop) :
  (forall st ev, P st -> P (fst (step st ev))) ->
  forall evs st, P st -> P (fst (run evs st)).
Proof.
  intros Hstep evs. induction evs as [|ev evs IH]; intros st HP; [exact HP|].
  cbn. pose proof (Hstep st ev HP) as H1.
  destruct (step st ev) as [st1 out1]. cbn in H1.
  specialize (IH st1 H1). destruct (run evs st1) as [st2 out2]. exact IH.
Qed.

Lemma thumbs_toSaleItem (p : Product.t num) :
  thumbs (toSaleItem p) = [nullish_or (getProductImage p) FALLBACK_IMG].
Proof.
  unfold thumbs, toSaleItem. destruct (getPrices p). reflexivity.
Qed.

Lemma setActive_activeImg (v : option (Obj num)) (st : State num) :
  activeImg st = 0 -> activeImg (fst (setActive v st)) = 0.
Proof.
  intros H0. unfold setActive. destruct (sameObj (active st) v); [exact H0|].
  unfold activeEffect. cbn. destruct v; [reflexivity | exact H0].
Qed.

Lemma step_activeImg (st : State num) (ev : Event num) :
  Inv st /\ activeImg st = 0 ->
  Inv (fst (step st ev)) /\ activeImg (fst (step st ev)) = 0.
Proof.
  intros [HI H0]. split; [apply SaleProofs.Inv_step, HI|].
  unfold step. destruct (negb (mounted st)); [exact H0|].
  destruct ev; cbv beta iota; unfold inModal;
    try (apply setActive_activeImg; exact H0).
  - exact H0.
  - destruct (data st), d; exact H0.
  - destruct (rendered st); [|exact H0].
    destruct (nth_error (itemObjs st) i); [|exact H0].
    apply setActive_activeImg, H0.
  - destruct (modalShown st); [|exact H0]. apply setActive_activeImg, H0.
  - destruct (modalShown st); [|exact H0]. apply setActive_activeImg, H0.
  - destruct (modalShown st) as [a|] eqn:Ha; [|exact H0].
    destruct (Nat.ltb_spec i (length (thumbs a))) as [Hlt|]; [|exact H0].
    cbn. apply SaleProofs.modalShown_active in Ha.
    destruct Ha as (_ & o & Ho & Hv).
    destruct HI as (_ & _ & Hsel). destruct (Hsel o Ho) as ((p & Hp) & _).
    rewrite <- Hv, Hp, thumbs_toSaleItem in Hlt. cbn in Hlt. lia.
  - destruct (modalShown st); [|exact H0].
    destruct (nth_error _ i); exact H0.
  - destruct (modalShown st); [|exact H0].
    destruct (nth_error _ i); exact H0.
  - destruct (modalShown st); exact H0.
  - destruct (modalShown st); exact H0.
  - destruct (modalShown st); exact H0.
  - destruct (modalShown st) as [a|]; [|exact H0].
    destruct (addDisabled a); [exact H0|].
    unfold onAddToCart.
    destruct (truthy_str (color st)); [|exact H0].
    destruct (truthy_str (size st)); [|exact H0].
    pose proof (setActive_activeImg None st H0) as H1.
    destruct (setActive None st). exact H1.
  - exact H0.
Qed.

(** X2. In every state the component reaches, the image index is a valid
    position of the thumbnail row of the item shown (there is one
    thumbnail, and the index is 0), so the main image of the modal is the
    image of the entry the item was built from, and the placeholder only
    when that entry has none. *)
Theorem main_image_is_item_image (st : State num) (a : SaleItem num) :
  reachable st ->
  modalShown st = Some a ->
  0 <= activeImg st < Z.of_nat (length (thumbs a)) /\
  exists p, a = toSaleItem p /\
    mainImage a (activeImg st) = nullish_or (getProductImage p) FALLBACK_IMG.
Proof.
  intros (l & e & d & evs & ->) Ha.
  destruct (run_invariant (fun s => Inv s /\ activeImg s = 0) step_activeImg
              evs (mount l e d)) as [HI H0].
  { split; [apply SaleProofs.Inv_mount | reflexivity]. }
  apply SaleProofs.modalShown_active in Ha. destruct Ha as (_ & o & Ho & Hv).
  destruct HI as (_ & _ & Hsel). destruct (Hsel o Ho) as ((p & Hp) & _).
  assert (Hap : a = toSaleItem p) by congruence.
  rewrite H0, Hap. unfold mainImage. rewrite thumbs_toSaleItem. cbn.
  split; [lia|]. exists p. split; reflexivity.
Qed.

(** ** Link and identifier *)

(** X17. The item's link is "/product/" followed by the entry's slug, or by
    its identifier when it has no slug, or by nothing when it has neither;
    the item's identifier is the entry's identifier, or the slug when it has
    none.  So the link ends in the item's identifier unless the entry has
    both a slug and an identifier. *)
Theorem item_link_and_id (p : Product.t num) :
  let it := toSaleItem p in
  href it = "/product/" ++ getProductSlug p /\
  (forall s, Product.slug p = Some s -> href it = "/product/" ++ s) /\
  (Product.slug p = None -> href it = "/product/" ++ id it) /\
  (Product.id p = None ->
   id it = nullish_or (Product.slug p) "" /\ href it = "/product/" ++ id it) /\
  (forall i, Product.id p = Some i -> id it = Product.String_of_Id i).
Proof.
  intros it.
  assert (Hh : href it = "/product/" ++ getProductSlug p).
  { unfold it, toSaleItem. destruct (getPrices p). reflexivity. }
  assert (Hi : id it = match Product.id p with
                       | Some i => Product.String_of_Id i
                       | None => getProductSlug p
                       end).
  { unfold it, toSaleItem. destruct (getPrices p). reflexivity. }
  split; [exact Hh|]. rewrite Hh, Hi. unfold getProductSlug.
  split; [|split; [|split]].
  - intros s ->. reflexivity.
  - intros ->. cbn. destruct (Product.id p); reflexivity.
  - intros ->. split; [reflexivity|]. destruct (Product.slug p); reflexivity.
  - intros i ->. reflexivity.
Qed.

(** ** The stock line and the button *)

Lemma available_not_sold_out (n : Z) :
  String_of_Z n ++ " available" <> "Sold Out".
Proof.
  intros Heq. apply (f_equal String.length) in Heq.
  rewrite string_length_append in Heq.
  change (String.length " available") with 10%nat in Heq.
  change (String.length "Sold Out") with 8%nat in Heq. lia.
Qed.

(** X3. The stock line and the Add to Cart button agree: the test that
    prints how many are available is the negation of the test that disables
    the button, and the line reads "Sold Out" exactly when the button is
    disabled. *)
Theorem stock_line_matches_button (a : SaleItem num) :
  inStock a = negb (addDisabled a) /\
  (stockLabel a = "Sold Out" <-> addDisabled a = true).
Proof.
  unfold inStock, stockLabel, addDisabled.
  destruct (stock a) as [n|]; [|split; [reflexivity | split; reflexivity]].
  assert (Hb : negb (n =? 0) && (n >? 0) = negb ((n =? 0) || (n <=? 0))).
  { destruct (Z.eqb_spec n 0), (Z.leb_spec n 0), (Z.gtb_spec n 0);
      cbn; (reflexivity || lia). }
  split; [exact Hb|]. rewrite Hb.
  destruct ((n =? 0) || (n <=? 0)); cbn [negb].
  - split; reflexivity.
  - split; [|discriminate]. intros Hl. destruct (available_not_sold_out n Hl).
Qed.

(** ** Keys *)

(** X4. Escape closes the modal from any mounted state, whether or not the
    grid is on screen, and emits nothing; pressed, like the close button or
    the overlay, when no item is active it changes nothing at all. *)
Theorem escape_closes_or_does_nothing (st : State num) :
  (mounted st = true ->
   active (fst (step st KeyEscape)) = None /\ snd (step st KeyEscape) = []) /\
  (active st = None ->
   step st KeyEscape = (st, []) /\
   step st ClickClose = (st, []) /\
   step st ClickOverlay = (st, [])).
Proof.
  split.
  - intros Hm. unfold step. rewrite Hm. apply SaleProofs.setActive_close.
  - intros Ha. unfold step, inModal, modalShown, setActive.
    rewrite Ha. cbn. destruct (negb (mounted st)), (rendered st); auto.
Qed.

Lemma last_In (l : list nat) (d : nat) : l <> [] -> In (last l d) l.
Proof.
  induction l as [|x l IH]; [congruence|]. intros _.
  destruct l as [|y l]; [left; reflexivity|].
  right. apply IH. discriminate.
Qed.

(** X5. The Tab handler keeps the focus in the panel: whatever it focuses is
    one of the panel's focusable elements; Tab on the last one goes to the
    first and Shift+Tab on the first goes to the last, so the two undo each
    other; on any other element, and when nothing is focused, it leaves the
    key alone, as it does when the panel is absent or has nothing to
    focus. *)
Theorem tab_wraps_inside_panel (first : nat) (rest : list nat) :
  let focusables := first :: rest in
  let last := List.last focusables first in
  (forall activeEl shiftKey t,
     onTab (Some focusables) activeEl shiftKey = Some t -> In t focusables) /\
  onTab (Some focusables) (Some last) false = Some first /\
  onTab (Some focusables) (Some first) true = Some last /\
  (forall x shiftKey, x <> first -> x <> last ->
     onTab (Some focusables) (Some x) shiftKey = None) /\
  (forall shiftKey,
     onTab (Some focusables) None shiftKey = None /\
     onTab None (Some first) shiftKey = None /\
     onTab (Some []) (Some first) shiftKey = None).
Proof.
  intros focusables last.
  assert (Hlast : In last focusables).
  { apply last_In. discriminate. }
  split; [|split; [|split; [|split]]].
  - intros activeEl shiftKey t. unfold onTab, focusables. fold focusables.
    fold last.
    destruct (shiftKey && isActive activeEl first).
    + intros Ht. inversion Ht. subst t. exact Hlast.
    + destruct (negb shiftKey && isActive activeEl last); [|discriminate].
      intros Ht. inversion Ht. subst t. left. reflexivity.
  - unfold onTab, focusables. fold focusables. fold last.
    cbn [andb negb isActive]. rewrite Nat.eqb_refl. reflexivity.
  - unfold onTab, focusables. fold focusables. fold last.
    cbn [andb negb isActive]. rewrite Nat.eqb_refl. reflexivity.
  - intros x shiftKey Hf Hl. unfold onTab, focusables. fold focusables.
    fold last. cbn [isActive].
    apply Nat.eqb_neq in Hf. apply Nat.eqb_neq in Hl. rewrite Hf, Hl.
    rewrite !andb_false_r. reflexivity.
  - intros shiftKey. unfold onTab, focusables. cbn [isActive].
    rewrite !andb_false_r. repeat split.
Qed.

(** ** Typed quantities *)

Ltac digit_step :=
  unfold read_digits; fold read_digits;
  match goal with
  | |- context [digit_of ?c] =>
      let v := eval vm_compute in (digit_of c) in
      change (digit_of c) with v; cbv beta iota
  end.

Lemma read_digits_acc_then (d : Decimal.uint) (acc : positive)
    (c : ascii) (rest : string) :
  digit_of c = None ->
  read_digits (NilEmpty.string_of_uint d ++ String c rest) (Some (Z.pos acc)) =
  Some (Z.pos (Pos.of_uint_acc d acc)).
Proof.
  intros Hc. revert acc.
  induction d; intros acc;
    cbn [NilEmpty.string_of_uint Pos.of_uint_acc append];
    [cbn [read_digits]; rewrite Hc; reflexivity | ..];
    digit_step; rewrite <- IHd; f_equal; f_equal; cbn [nullish_or]; lia.
Qed.

Lemma read_digits_zero_then (d : Decimal.uint) (c : ascii) (rest : string) :
  digit_of c = None ->
  read_digits (NilEmpty.string_of_uint d ++ String c rest) (Some 0) =
  Some (Z.of_N (Pos.of_uint d)).
Proof.
  intros Hc.
  induction d; cbn [NilEmpty.string_of_uint Pos.of_uint append];
    [cbn [read_digits]; rewrite Hc; reflexivity | ..];
    digit_step; cbn [nullish_or Z.mul Z.add];
    first [exact IHd | apply read_digits_acc_then; exact Hc].
Qed.

Lemma parseInt_uint_then (d : Decimal.uint) (c : ascii) (rest : string) :
  d <> Decimal.Nil ->
  digit_of c = None ->
  parseInt (NilEmpty.string_of_uint d ++ String c rest) =
    Some (toDouble (Z.of_N (Pos.of_uint d))) /\
  parseInt (String "-" (NilEmpty.string_of_uint d ++ String c rest)) =
    Some (toDouble (- Z.of_N (Pos.of_uint d))).
Proof.
  intros Hd Hc.
  assert (Hnone :
    read_digits (NilEmpty.string_of_uint d ++ String c rest) None =
    read_digits (NilEmpty.string_of_uint d ++ String c rest) (Some 0)).
  { destruct d; [contradiction | ..]; reflexivity. }
  split.
  - transitivity
      (option_map toDouble
         (read_digits (NilEmpty.string_of_uint d ++ String c rest) None)).
    + destruct d; [contradiction | ..]; reflexivity.
    + rewrite Hnone, (read_digits_zero_then d c rest Hc). reflexivity.
  - change (option_map (fun n => toDouble (- n))
              (read_digits (NilEmpty.string_of_uint d ++ String c rest) None) =
            Some (toDouble (- Z.of_N (Pos.of_uint d)))).
    rewrite Hnone, (read_digits_zero_then d c rest Hc). reflexivity.
Qed.

Lemma parseInt_decimal_then (v : Z) (c : ascii) (rest : string) :
  digit_of c = None ->
  parseInt (decimal v ++ String c rest) = Some (toDouble v).
Proof.
  intros Hc.
  assert (Hnz : forall d, d <> Decimal.Nil ->
              NilZero.string_of_uint d = NilEmpty.string_of_uint d).
  { intros d Hd. destruct d; [contradiction | ..]; reflexivity. }
  unfold decimal. destruct v as [|p|p];
    cbn [Z.to_int NilZero.string_of_int].
  - apply (proj1 (parseInt_uint_then (Decimal.D0 Decimal.Nil) c rest
                    ltac:(discriminate) Hc)).
  - pose proof (DecimalPos.Unsigned.to_uint_nonnil p) as Hn.
    rewrite (Hnz _ Hn), (proj1 (parseInt_uint_then _ c rest Hn Hc)).
    rewrite DecimalPos.Unsigned.of_to. reflexivity.
  - pose proof (DecimalPos.Unsigned.to_uint_nonnil p) as Hn.
    rewrite (Hnz _ Hn). cbn [append].
    rewrite (proj2 (parseInt_uint_then _ c rest Hn Hc)).
    rewrite DecimalPos.Unsigned.of_to. reflexivity.
Qed.

Lemma skip_spaces_white (w value : string) :
  In w WHITE_SPACE -> skip_spaces (w ++ value) = skip_spaces value.
Proof.
  intros Hin. cbn in Hin.
  repeat (destruct Hin as [<- | Hin]; [reflexivity|]). contradiction.
Qed.

(** X6. The quantity field reads the leading integer and ignores what
    follows it: the decimal digits of an integer [v] of magnitude at most
    2^53, followed by a character that is not a digit (a decimal point, an
    exponent letter) and anything after, give [max(1, v)]; white space
    before the number, of any of the kinds [parseInt] knows, is skipped;
    and a text that, past the white space, starts with neither a sign nor a
    digit gives 1. *)
Theorem quantity_field_reads_leading_integer :
  (forall (v : Z) (c : ascii) (rest : string),
     - 2 ^ 53 <= v <= 2 ^ 53 ->
     digit_of c = None ->
     parseInt (String_of_Z v ++ String c rest) = Some v /\
     inputQty (String_of_Z v ++ String c rest) = Z.max 1 v) /\
  (forall w value : string,
     In w WHITE_SPACE ->
     inputQty (w ++ value) = inputQty value) /\
  (forall (value : string) (c : ascii) (rest : string),
     skip_spaces value = String c rest ->
     digit_of c = None ->
     c <> "-"%char -> c <> "+"%char ->
     inputQty value = 1).
Proof.
  split; [|split].
  - intros v c rest Hv Hc.
    assert (Hp : parseInt (String_of_Z v ++ String c rest) = Some v).
    { rewrite (String_of_Z_safe v Hv), (parseInt_decimal_then v c rest Hc).
      rewrite (toDouble_exact v Hv). reflexivity. }
    split; [exact Hp|]. unfold inputQty. rewrite Hp. reflexivity.
  - intros w value Hin. unfold inputQty, parseInt.
    rewrite (skip_spaces_white w value Hin). reflexivity.
  - intros value c rest Hs Hd Hm Hp. unfold inputQty, parseInt. rewrite Hs.
    assert (Hr : read_digits (String c rest) None = None).
    { cbn [read_digits]. rewrite Hd. reflexivity. }
    destruct c as [b0 b1 b2 b3 b4 b5 b6 b7].
    destruct b0, b1, b2, b3, b4, b5, b6, b7;
      try (exfalso; apply Hm; reflexivity);
      try (exfalso; apply Hp; reflexivity);
      rewrite Hr; reflexivity.
Qed.

(** ** What the cart receives *)

Lemma setActive_outputs (v : option (Obj num)) (st : State num) :
  snd (setActive v st) = [] \/ snd (setActive v st) = [DeferFocusClose].
Proof.
  unfold setActive. destruct (sameObj (active st) v); [left; reflexivity|].
  unfold activeEffect. cbn. destruct v; [right | left]; reflexivity.
Qed.

Lemma setActive_valid (v : option (Obj num)) (st : State num) :
  Forall validPayload (snd (setActive v st)).
Proof.
  destruct (setActive_outputs v st) as [-> | ->]; repeat constructor.
Qed.

Lemma step_valid (st : State num) (ev : Event num) :
  Inv st -> Forall validPayload (snd (step st ev)).
Proof.
  intros HI. unfold step.
  destruct (negb (mounted st)); [constructor|].
  destruct ev; cbv beta iota; unfold inModal;
    try apply setActive_valid; try (cbn; constructor).
  - destruct (data st), d; constructor.
  - destruct (rendered st); [|constructor].
    destruct (nth_error (itemObjs st) i);
      [apply setActive_valid | constructor].
  - destruct (modalShown st); [apply setActive_valid | constructor].
  - destruct (modalShown st); [apply setActive_valid | constructor].
  - destruct (modalShown st); [|constructor].
    destruct (_ <? _)%nat; constructor.
  - destruct (modalShown st); [|constructor].
    destruct (nth_error _ i); constructor.
  - destruct (modalShown st); [|constructor].
    destruct (nth_error _ i); constructor.
  - destruct (modalShown st); constructor.
  - destruct (modalShown st); constructor.
  - destruct (modalShown st); constructor.
  - destruct (modalShown st) as [a|] eqn:Ha; [|constructor].
    destruct (addDisabled a) eqn:Hd; [constructor|].
    destruct (SaleProofs.modalShown_active st a Ha) as (_ & o & Ho & Hv).
    subst a.
    destruct (SaleProofs.onAddToCart_selected st o HI Ho)
      as (c & z & Hc & Hz & _ & _ & ->).
    destruct HI as (Hq & _ & Hsel).
    destruct (Hsel o Ho) as (Hp & (c' & Hc' & Hcin) & (z' & Hz' & Hzin)).
    assert (c' = c) by congruence. assert (z' = z) by congruence. subst c' z'.
    cbn. constructor; [|constructor].
    cbn. repeat split; assumption.
Qed.

Lemma run_valid (evs : list (Event num)) (st : State num) :
  Inv st -> Forall validPayload (snd (run evs st)).
Proof.
  revert st. induction evs as [|ev evs IH]; intros st HI; cbn; [constructor|].
  pose proof (SaleProofs.Inv_step st ev HI) as H1.
  pose proof (step_valid st ev HI) as H2.
  destruct (step st ev) as [st1 out1]. cbn in H1, H2.
  specialize (IH st1 H1). destruct (run evs st1) as [st2 out2]. cbn in *.
  apply Forall_app. split; assumption.
Qed.

(** X7. Every [cart:add] event the component ever dispatches carries an item
    built by [toSaleItem] whose stock is known and positive, a color and a
    size taken from the fixed option lists, and a quantity of at least 1. *)
Theorem cart_payloads_are_valid (l e : bool)
    (d : option (list (Product.t num))) (evs : list (Event num))
    (detail : CartAdd num) :
  In (DispatchCartAdd detail) (snd (run evs (mount l e d))) ->
  (exists p, detail_item detail = toSaleItem p) /\
  (exists n, stock (detail_item detail) = Some n /\ 0 < n) /\
  In (detail_color detail) ["Navy"; "Black"; "White"; "Grey"] /\
  In (detail_size detail) ["S"; "M"; "L"; "XL"; "XXL"] /\
  1 <= detail_qty detail.
Proof.
  intros Hin.
  pose proof (run_valid evs (mount l e d) (SaleProofs.Inv_mount l e d)) as Hall.
  rewrite Forall_forall in Hall. specialize (Hall _ Hin). cbn in Hall.
  destruct Hall as (Hp & Hd & Hc & Hz & Hq).
  apply SaleProofs.addDisabled_false in Hd. auto.
Qed.

Lemma setActive_no_dispatch (v : option (Obj num)) (st : State num) :
  length (filter isDispatch (snd (setActive v st))) = 0%nat.
Proof.
  destruct (setActive_outputs v st) as [-> | ->]; reflexivity.
Qed.

Lemma setActive_None_closed (st : State num) :
  openNow (fst (setActive None st)) = 0%nat.
Proof.
  unfold openNow. rewrite (proj1 (SaleProofs.setActive_close st)). reflexivity.
Qed.

Lemma openNow_le_1 (st : State num) : (openNow st <= 1)%nat.
Proof. unfold openNow. destruct (active st); lia. Qed.

Lemma step_dispatch_budget (st : State num) (ev : Event num) :
  (length (filter isDispatch (snd (step st ev))) + openNow (fst (step st ev))
   <= (if isCardClick ev then 1 else 0) + openNow st)%nat.
Proof.
  assert (Hsame : forall b : bool,
            (length (filter isDispatch (snd (st, @nil (Output num))))
             + openNow (fst (st, @nil (Output num)))
             <= (if b then 1 else 0) + openNow st)%nat).
  { intros b. cbn. destruct b; lia. }
  assert (Hframe : forall (st' : State num) (b : bool),
            active st' = active st ->
            (length (filter isDispatch (snd (st', @nil (Output num))))
             + openNow (fst (st', @nil (Output num)))
             <= (if b then 1 else 0) + openNow st)%nat).
  { intros st' b Ha. unfold openNow. cbn. rewrite Ha. destruct b; lia. }
  assert (Hclose :
            (length (filter isDispatch (snd (setActive None st)))
             + openNow (fst (setActive None st)) <= 0 + openNow st)%nat).
  { rewrite setActive_no_dispatch, setActive_None_closed. lia. }
  unfold step. destruct (negb (mounted st)); [apply Hsame|].
  destruct ev; cbv beta iota; unfold inModal; cbn [isCardClick].
  - apply (Hframe _ false). reflexivity.
  - destruct (data st), d; apply (Hframe _ false); reflexivity.
  - destruct (rendered st); [|apply (Hsame true)].
    destruct (nth_error (itemObjs st) i); [|apply (Hsame true)].
    rewrite setActive_no_dispatch.
    pose proof (openNow_le_1 (fst (setActive (Some o) st))). lia.
  - destruct (modalShown st); [exact Hclose | apply (Hsame false)].
  - destruct (modalShown st); [exact Hclose | apply (Hsame false)].
  - exact Hclose.
  - destruct (modalShown st); [|apply (Hsame false)].
    destruct (_ <? _)%nat; apply (Hframe _ false); reflexivity.
  - destruct (modalShown st); [|apply (Hsame false)].
    destruct (nth_error _ i); apply (Hframe _ false); reflexivity.
  - destruct (modalShown st); [|apply (Hsame false)].
    destruct (nth_error _ i); apply (Hframe _ false); reflexivity.
  - destruct (modalShown st); apply (Hframe _ false); reflexivity.
  - destruct (modalShown st); apply (Hframe _ false); reflexivity.
  - destruct (modalShown st); apply (Hframe _ false); reflexivity.
  - destruct (modalShown st) as [a|] eqn:Ha; [|apply (Hsame false)].
    destruct (addDisabled a); [apply (Hsame false)|].
    destruct (SaleProofs.modalShown_active st a Ha) as (_ & o & Ho & _).
    unfold onAddToCart.
    destruct (truthy_str (color st)); [|cbn; lia].
    destruct (truthy_str (size st)); [|cbn; lia].
    pose proof (setActive_no_dispatch None st) as Hn.
    pose proof (setActive_None_closed st) as Hz.
    destruct (setActive None st) as [st' out]. cbn in *.
    unfold openNow at 2. rewrite Ho. lia.
  - apply (Hframe _ false). reflexivity.
Qed.

(** X8. In any run, from any state, the number of [cart:add] events
    dispatched is at most the number of card clicks, plus one if an item
    was active at the start: each opening of the modal adds to the cart at
    most once. *)
Theorem one_cart_add_per_opening (evs : list (Event num)) (st : State num) :
  (length (filter isDispatch (snd (run evs st))) + openNow (fst (run evs st))
   <= length (filter isCardClick evs) + openNow st)%nat.
Proof.
  revert st. induction evs as [|ev evs IH]; intros st; cbn; [lia|].
  pose proof (step_dispatch_budget st ev) as Hs.
  destruct (step st ev) as [st1 out1]. cbn in Hs.
  specialize (IH st1). destruct (run evs st1) as [st2 out2]. cbn in *.
  rewrite filter_app, length_app.
  destruct (isCardClick ev); cbn; lia.
Qed.

End WithNumbers.

(** ** Stars *)

Lemma Qfloor_unique (x : Q) (z : Z) :
  (inject_Z z <= x)%Q -> (x < inject_Z (z + 1))%Q -> Qfloor x = z.
Proof.
  intros Hlo Hhi.
  pose proof (Qfloor_resp_le _ _ Hlo) as H1. rewrite Qfloor_Z in H1.
  pose proof (Qfloor_le x) as H2.
  assert (H3 : (inject_Z (Qfloor x) < inject_Z (z + 1))%Q).
  { eapply Qle_lt_trans; eassumption. }
  rewrite <- Zlt_Qlt in H3. lia.
Qed.

Lemma Qfloor_half_up (value : Q) :
  Qfloor (value + (1 # 2)) =
  StarRating.full value + (if StarRating.half value then 1 else 0).
Proof.
  unfold StarRating.half, StarRating.full.
  pose proof (Qfloor_le value) as Hlo.
  pose proof (Qlt_floor value) as Hhi.
  rewrite inject_Z_plus in Hhi. change (inject_Z 1) with 1%Q in Hhi.
  destruct (Qle_bool (1 # 2) (value - inject_Z (Qfloor value))) eqn:Hh.
  - apply Qle_bool_iff in Hh. apply Qfloor_unique.
    + rewrite inject_Z_plus. change (inject_Z 1) with 1%Q. lra.
    + rewrite !inject_Z_plus. change (inject_Z 1) with 1%Q. lra.
  - assert (Hlt : ~ (1 # 2 <= value - inject_Z (Qfloor value))%Q).
    { intros Hc. apply Qle_bool_iff in Hc. congruence. }
    apply Qfloor_unique.
    + rewrite inject_Z_plus. change (inject_Z 0) with 0%Q. lra.
    + rewrite !inject_Z_plus. change (inject_Z 0) with 0%Q.
      change (inject_Z 1) with 1%Q. lra.
Qed.

(** X16. The star row shows the rating rounded to the nearest whole number,
    halves up: star [i] (counted from 0) is filled exactly when
    [i < floor(value + 1/2)], so the filled stars come first and there are
    [floor(value + 1/2)] of them, none for a rating below one half and all
    five from four and a half on. *)
Theorem stars_show_rounded_rating (value : Q) :
  (forall i : Z,
     StarRating.filled value i = (i <? Qfloor (value + (1 # 2)))) /\
  length (filter (fun b : bool => b) (StarRating.stars value)) =
    Z.to_nat (Z.min 5 (Z.max 0 (Qfloor (value + (1 # 2))))).
Proof.
  assert (Hf : forall i : Z,
            StarRating.filled value i = (i <? Qfloor (value + (1 # 2)))).
  { intros i. rewrite Qfloor_half_up. unfold StarRating.filled.
    destruct (StarRating.half value);
      destruct (Z.ltb_spec i (StarRating.full value)),
               (Z.eqb_spec i (StarRating.full value));
      cbn; symmetry; (apply Z.ltb_lt || apply Z.ltb_ge); lia. }
  split; [exact Hf|].
  unfold StarRating.stars. cbn [map]. rewrite !Hf.
  set (r := Qfloor (value + (1 # 2))).
  assert (Hr : r <= 0 \/ r = 1 \/ r = 2 \/ r = 3 \/ r = 4 \/ 5 <= r) by lia.
  destruct Hr as [Hr | [-> | [-> | [-> | [-> | Hr]]]]]; try reflexivity.
  - rewrite Z.max_l, Z.min_r by lia.
    repeat match goal with
           | |- context [?a <? r] =>
               replace (a <? r) with false by (symmetry; apply Z.ltb_ge; lia)
           end.
    reflexivity.
  - rewrite Z.max_r, Z.min_l by lia.
    repeat match goal with
           | |- context [?a <? r] =>
               replace (a <? r) with true by (symmetry; apply Z.ltb_lt; lia)
           end.
    reflexivity.
Qed.

(** ** The theorems at work on the sample shop *)

Lemma getProductImage_sources_witness :
  image (toSaleItem Samples.teeA) = Some FALLBACK_IMG.
Proof.
  apply (proj2 (proj2 (proj2 (proj2 (getProductImage_sources Samples.teeA))))).
  reflexivity.
Defined.

Lemma main_image_is_item_image_witness :
  0 <= activeImg Samples.opened
    < Z.of_nat (length (thumbs (toSaleItem Samples.teeA))) /\
  exists p, toSaleItem Samples.teeA = toSaleItem p /\
    mainImage (toSaleItem Samples.teeA) (activeImg Samples.opened) =
      nullish_or (getProductImage p) FALLBACK_IMG.
Proof.
  apply (main_image_is_item_image Samples.opened (toSaleItem Samples.teeA)).
  - exact SaleProofs.opened_reachable.
  - reflexivity.
Defined.

Lemma escape_closes_or_does_nothing_witness :
  active (fst (step Samples.opened KeyEscape)) = None /\
  step Samples.shop KeyEscape = (Samples.shop, []).
Proof.
  split.
  - apply (proj1 (escape_closes_or_does_nothing Samples.opened)). reflexivity.
  - apply (proj2 (escape_closes_or_does_nothing Samples.shop)). reflexivity.
Defined.

Lemma tab_wraps_inside_panel_witness :
  In 30%nat [10; 20; 30]%nat /\
  onTab (Some [10; 20; 30]%nat) (Some 20%nat) true = None.
Proof.
  destruct (@tab_wraps_inside_panel 10%nat [20; 30]%nat)
    as (Hin & _ & _ & Hmid & _).
  split.
  - apply (Hin (Some 10%nat) true 30%nat). reflexivity.
  - apply Hmid; discriminate.
Defined.

Lemma quantity_field_reads_leading_integer_witness :
  inputQty "2.7" = 2 /\
  inputQty (bytes [194; 160]%nat ++ "12") = inputQty "12" /\
  inputQty " e5" = 1.
Proof.
  destruct quantity_field_reads_leading_integer as (Hnum & Hsp & Hno).
  split; [|split].
  - apply (Hnum 2 "."%char "7"); [|reflexivity].
    vm_compute. split; discriminate.
  - apply (Hsp (bytes [194; 160]%nat) "12").
    cbn. do 6 right. left. reflexivity.
  - apply (Hno " e5" "e"%char "5"); (reflexivity || discriminate).
Defined.

Lemma item_link_and_id_witness :
  href (toSaleItem Samples.teeA) = "/product/7" /\
  id (toSaleItem Samples.teeA) = "7".
Proof.
  destruct (item_link_and_id Samples.teeA) as (_ & _ & Hlink & _ & Hid).
  split.
  - rewrite Hlink; reflexivity.
  - apply (Hid (Product.IdNum 7)). reflexivity.
Defined.

Lemma stock_line_matches_button_witness :
  stockLabel (toSaleItem Samples.teeB) = "Sold Out" /\
  stockLabel (toSaleItem Samples.teeA) <> "Sold Out".
Proof.
  split.
  - apply (proj2 (stock_line_matches_button (toSaleItem Samples.teeB))).
    reflexivity.
  - intros Hl.
    apply (proj2 (stock_line_matches_button (toSaleItem Samples.teeA))) in Hl.
    discriminate Hl.
Defined.

Lemma cart_payloads_are_valid_witness :
  let detail :=
    {| detail_item := toSaleItem Samples.teeA;
       detail_color := "Navy"; detail_size := "S"; detail_qty := 2 |} in
  (exists p, detail_item detail = toSaleItem p) /\
  (exists n, stock (detail_item detail) = Some n /\ 0 < n) /\
  In (detail_color detail) ["Navy"; "Black"; "White"; "Grey"] /\
  In (detail_size detail) ["S"; "M"; "L"; "XL"; "XXL"] /\
  1 <= detail_qty detail.
Proof.
  intros detail.
  apply (cart_payloads_are_valid false false
           (Some [Samples.teeA; Samples.teeB])
           [ClickCard 0; ClickPlus; ClickAddToCart] detail).
  vm_compute. right. left. reflexivity.
Defined.

End SaleExtras.

(* ================================================================== *)
(** * More about the carousels *)

Module CarouselExtras.

Import Carousel.

(** ** The slides of the gallery variant *)

(** X9. The slides of the gallery carousel are exactly the non-empty string
    images of the listing: entries whose image is a file, null or the empty
    string give no slide, an absent listing gives none, and there are never
    more slides than entries. *)
Theorem gallery_items_are_string_images
    (d : option (list Gallery.GaleriItem)) :
  (forall u : string,
     In u (Gallery.items d) <->
     u <> "" /\
     exists it, In it (nullish_or d []) /\
                Gallery.image it = Gallery.ImgString u) /\
  (length (Gallery.items d) <= length (nullish_or d []))%nat /\
  Gallery.items None = [].
Proof.
  split; [|split; [|reflexivity]].
  - intros u. unfold Gallery.items. rewrite filter_In, in_map_iff.
    assert (Hne : (0 <? String.length u)%nat = true <-> u <> "").
    { destruct u; cbn; split; congruence. }
    rewrite Hne. split.
    + intros ((it & Hi & Hin) & Hu). split; [exact Hu|].
      exists it. split; [exact Hin|].
      destruct (Gallery.image it); subst; try (exfalso; apply Hu; reflexivity).
      reflexivity.
    + intros (Hu & it & Hin & Hi). split; [|exact Hu].
      exists it. rewrite Hi. auto.
  - unfold Gallery.items.
    etransitivity; [apply filter_length_le | rewrite length_map; lia].
Qed.

(** ** The index of the gallery variant *)

Lemma gallery_commit_indexOk (old new : Gallery.State) :
  Gallery.index new = Gallery.index old ->
  Gallery.indexOk old ->
  Gallery.indexOk (Gallery.commit old new).
Proof.
  intros Hi (H0 & Hr). unfold Gallery.indexOk.
  rewrite CarouselProofs.gallery_commit_len.
  destruct (Z.eq_dec (Gallery.len old) (Gallery.len new)) as [Hl | Hl].
  - rewrite (CarouselProofs.gallery_commit_index old new Hl), Hi, <- Hl. auto.
  - unfold Gallery.commit.
    destruct (Z.eqb_spec (Gallery.len old) (Gallery.len new)); [contradiction|].
    cbn [negb orb].
    rewrite (proj2 (CarouselProofs.gallery_autoplay_keeps _)). cbn. lia.
Qed.

Lemma gallery_setIndex_indexOk (st : Gallery.State) (v : Z) :
  0 <= v < Gallery.len st -> Gallery.indexOk (Gallery.setIndex v st).
Proof.
  intros Hv. unfold Gallery.indexOk.
  change (Gallery.index (Gallery.setIndex v st)) with v.
  change (Gallery.len (Gallery.setIndex v st)) with (Gallery.len st).
  lia.
Qed.

Lemma gallery_step_indexOk (st : Gallery.State) (ev : Gallery.Event) :
  Gallery.timerOk st -> Gallery.indexOk st ->
  Gallery.indexOk (Gallery.step st ev).
Proof.
  intros Ht Hi. unfold Gallery.step.
  destruct (negb (Gallery.mounted st)); [exact Hi|].
  destruct ev.
  - apply gallery_commit_indexOk; [reflexivity | exact Hi].
  - destruct (Gallery.placeholder st); [exact Hi|].
    apply gallery_commit_indexOk; [reflexivity | exact Hi].
  - destruct (Gallery.placeholder st); [exact Hi|].
    apply gallery_commit_indexOk; [reflexivity | exact Hi].
  - destruct (Gallery.timer st) eqn:Htm; [|exact Hi].
    unfold Gallery.timerOk in Ht. rewrite Htm in Ht. symmetry in Ht.
    apply andb_true_iff in Ht. destruct Ht as [_ Hl]. apply Z.ltb_lt in Hl.
    destruct Hi as (H0 & _).
    apply gallery_setIndex_indexOk, Z.rem_bound_pos; lia.
  - destruct (Gallery.arrowsShown st) eqn:Ha; [|exact Hi].
    unfold Gallery.arrowsShown in Ha.
    apply andb_true_iff in Ha. destruct Ha as [_ Hl]. apply Z.ltb_lt in Hl.
    destruct Hi as (H0 & _).
    apply gallery_setIndex_indexOk, Z.rem_bound_pos; lia.
  - destruct (Gallery.arrowsShown st) eqn:Ha; [|exact Hi].
    unfold Gallery.arrowsShown in Ha.
    apply andb_true_iff in Ha. destruct Ha as [_ Hl]. apply Z.ltb_lt in Hl.
    destruct Hi as (H0 & _).
    apply gallery_setIndex_indexOk, Z.rem_bound_pos; lia.
  - destruct (Gallery.dotsShown st && _) eqn:Hd; [|exact Hi].
    apply andb_true_iff in Hd. destruct Hd as [_ Hd]. apply Z.ltb_lt in Hd.
    apply gallery_setIndex_indexOk. lia.
  - exact Hi.
Qed.

Lemma gallery_run_ok (evs : list Gallery.Event) (st : Gallery.State) :
  Gallery.timerOk st -> Gallery.indexOk st ->
  Gallery.timerOk (Gallery.run evs st) /\ Gallery.indexOk (Gallery.run evs st).
Proof.
  revert st. induction evs as [|ev evs IH]; intros st Ht Hi; [auto|].
  apply (IH (Gallery.step st ev)).
  - apply CarouselProofs.gallery_step_timerOk, Ht.
  - apply gallery_step_indexOk; assumption.
Qed.

Lemma gallery_mount_indexOk (p : Gallery.Props) (l e : bool)
    (d : option (list Gallery.GaleriItem)) :
  Gallery.indexOk (Gallery.mount p l e d).
Proof.
  unfold Gallery.indexOk, Gallery.mount, Gallery.autoplayEffect.
  destruct (_ || _); cbn; lia.
Qed.

(** X10. The gallery carousel never points past its slides, whatever
    happens to it, new query results included: the index is never negative,
    it is below the number of slides or else 0, and whenever the track is
    on screen it is the position of a slide. *)
Theorem gallery_index_always_in_range (p : Gallery.Props) (l e : bool)
    (d : option (list Gallery.GaleriItem)) (evs : list Gallery.Event) :
  let st := Gallery.run evs (Gallery.mount p l e d) in
  0 <= Gallery.index st /\
  (Gallery.index st < Gallery.len st \/ Gallery.index st = 0) /\
  (Gallery.placeholder st = false ->
   0 <= Gallery.index st < Gallery.len st).
Proof.
  intros st.
  destruct (gallery_run_ok evs _ (CarouselProofs.gallery_timerOk_mount p l e d)
              (gallery_mount_indexOk p l e d)) as [_ (H0 & Hr)].
  fold st in H0, Hr. split; [exact H0|]. split; [exact Hr|].
  intros Hp. unfold Gallery.placeholder in Hp.
  apply orb_false_iff in Hp. destruct Hp as [_ Hp]. apply Z.eqb_neq in Hp.
  assert (0 <= Gallery.len st) by (unfold Gallery.len; lia).
  lia.
Qed.

(** ** The interval of the gallery variant *)

Lemma gallery_commit_fields (old new : Gallery.State) :
  Gallery.paused (Gallery.commit old new) = Gallery.paused new /\
  Gallery.mounted (Gallery.commit old new) = Gallery.mounted new /\
  Gallery.placeholder (Gallery.commit old new) = Gallery.placeholder new.
Proof.
  unfold Gallery.commit, Gallery.autoplayEffect.
  destruct (negb (Gallery.len old =? Gallery.len new)); cbn [orb].
  - destruct (_ || _); repeat split.
  - destruct (negb _); [|repeat split].
    destruct (_ || _); repeat split.
Qed.

(** X11. In every state the gallery carousel reaches, an interval is armed
    exactly when the carousel is mounted, not paused and has more than one
    slide.  Hence hovering the track stops the autoplay (a tick then
    changes nothing) and leaving it starts it again when there is more
    than one slide, and nothing is left armed after unmounting. *)
Theorem gallery_timer_follows_guard (p : Gallery.Props) (l e : bool)
    (d : option (list Gallery.GaleriItem)) (evs : list Gallery.Event) :
  let st := Gallery.run evs (Gallery.mount p l e d) in
  Gallery.timer st =
    Gallery.mounted st && negb (Gallery.paused st) && (1 <? Gallery.len st) /\
  (Gallery.mounted st = true -> Gallery.placeholder st = false ->
   let hovered := Gallery.step st Gallery.MouseEnter in
   Gallery.timer hovered = false /\
   Gallery.step hovered Gallery.Tick = hovered /\
   Gallery.timer (Gallery.step hovered Gallery.MouseLeave) =
     (1 <? Gallery.len st)) /\
  Gallery.timer (Gallery.step st Gallery.Unmount) = false.
Proof.
  intros st.
  assert (Hok : forall more, Gallery.timerOk (Gallery.run more st)).
  { intros more. apply CarouselProofs.gallery_run_timerOk.
    apply CarouselProofs.gallery_run_timerOk.
    apply CarouselProofs.gallery_timerOk_mount. }
  split; [exact (Hok [])|]. split.
  - intros Hm Hp hovered.
    assert (Hh : hovered = Gallery.commit st (Gallery.setPaused true st)).
    { unfold hovered, Gallery.step. rewrite Hm, Hp. reflexivity. }
    destruct (gallery_commit_fields st (Gallery.setPaused true st))
      as (Hpa & Hmo & Hpl).
    rewrite <- Hh in Hpa, Hmo, Hpl. cbn in Hpa, Hmo.
    assert (Hlen : Gallery.len hovered = Gallery.len st).
    { rewrite Hh, CarouselProofs.gallery_commit_len. reflexivity. }
    assert (Hpl' : Gallery.placeholder hovered = false).
    { rewrite Hpl. exact Hp. }
    pose proof (Hok [Gallery.MouseEnter]) as H1.
    change (Gallery.run [Gallery.MouseEnter] st) with hovered in H1.
    unfold Gallery.timerOk in H1. rewrite Hpa in H1. cbn [negb] in H1.
    rewrite andb_false_r in H1. cbn [andb] in H1.
    split; [exact H1|]. split.
    + unfold Gallery.step. rewrite H1. destruct (negb _); reflexivity.
    + pose proof (Hok [Gallery.MouseEnter; Gallery.MouseLeave]) as H2.
      change (Gallery.run [Gallery.MouseEnter; Gallery.MouseLeave] st)
        with (Gallery.step hovered Gallery.MouseLeave) in H2.
      unfold Gallery.timerOk in H2. rewrite H2.
      unfold Gallery.step. rewrite Hmo, Hm, Hpl'. cbn [negb].
      destruct (gallery_commit_fields hovered (Gallery.setPaused false hovered))
        as (Hpa2 & Hmo2 & _).
      rewrite Hpa2, Hmo2, CarouselProofs.gallery_commit_len.
      change (Gallery.mounted (Gallery.setPaused false hovered))
        with (Gallery.mounted hovered).
      change (Gallery.paused (Gallery.setPaused false hovered)) with false.
      change (Gallery.len (Gallery.setPaused false hovered))
        with (Gallery.len hovered).
      rewrite Hmo, Hm, Hlen. reflexivity.
  - unfold Gallery.step. destruct (Gallery.mounted st) eqn:Hm; cbn.
    + reflexivity.
    + pose proof (Hok []) as H0. cbn in H0. unfold Gallery.timerOk in H0.
      rewrite H0, Hm. reflexivity.
Qed.

(** ** The static variant *)

Lemma static_len_pos (st : Static.State) : 1 <= Static.len st.
Proof.
  unfold Static.len.
  destruct (Static.images (Static.props st)) as [[|x l]|]; cbn; lia.
Qed.

(** X12. The static carousel always has slides: without images, or with an
    empty list, it shows the default image three times, and otherwise the
    images it was given, so the number of slides is never 0. *)
Theorem static_items_never_empty (imgs : option (list string)) :
  Static.items imgs <> [] /\
  (imgs = None \/ imgs = Some [] ->
   Static.items imgs =
     [Static.DEFAULT_IMAGE; Static.DEFAULT_IMAGE; Static.DEFAULT_IMAGE]) /\
  (forall l, imgs = Some l -> l <> [] -> Static.items imgs = l) /\
  (forall st : Static.State, 1 <= Static.len st).
Proof.
  split; [|split; [|split]].
  - destruct imgs as [[|x l]|]; discriminate.
  - intros [-> | ->]; reflexivity.
  - intros l -> Hl. destruct l; [contradiction | reflexivity].
  - exact static_len_pos.
Qed.

Lemma static_autoplay_timerOk (s : Static.State) :
  Static.mounted s = true ->
  Static.timerOk (Static.autoplayEffect (Static.autoplayCleanup s)).
Proof.
  intros Hm. unfold Static.timerOk, Static.autoplayEffect.
  change (Static.paused (Static.autoplayCleanup s)) with (Static.paused s).
  destruct (Static.paused s) eqn:Hp.
  - change (false = Static.mounted s && negb (Static.paused s)).
    rewrite Hp. apply eq_sym, andb_false_r.
  - change (true = Static.mounted s && negb (Static.paused s)).
    rewrite Hm, Hp. reflexivity.
Qed.

Lemma static_commit_timerOk (old new : Static.State) :
  Static.timerOk old ->
  Static.mounted old = true ->
  Static.mounted new = true ->
  Static.timer new = Static.timer old ->
  Static.timerOk (Static.commit old new).
Proof.
  intros Hok Hmo Hmn Ht. unfold Static.commit.
  destruct (negb (Static.len old =? Static.len new)); cbn [orb];
    [apply static_autoplay_timerOk, Hmn|].
  destruct (Bool.eqb (Static.paused old) (Static.paused new)) eqn:Hp;
    cbn [negb]; [|apply static_autoplay_timerOk, Hmn].
  apply Bool.eqb_prop in Hp. unfold Static.timerOk in *.
  rewrite Ht, Hok, Hmo, Hmn, Hp. reflexivity.
Qed.

Lemma static_step_timerOk (st : Static.State) (ev : Static.Event) :
  Static.timerOk st -> Static.timerOk (Static.step st ev).
Proof.
  intros Hok. unfold Static.step.
  destruct (Static.mounted st) eqn:Hm; cbn [negb]; [|exact Hok].
  destruct ev.
  - apply static_commit_timerOk; auto.
  - apply static_commit_timerOk; auto.
  - apply static_commit_timerOk; auto.
  - destruct (Static.timer st); exact Hok.
  - destruct (Static.arrowsShown st); exact Hok.
  - destruct (Static.arrowsShown st); exact Hok.
  - destruct (_ && _); exact Hok.
  - reflexivity.
Qed.

Lemma static_run_timerOk (evs : list Static.Event) (st : Static.State) :
  Static.timerOk st -> Static.timerOk (Static.run evs st).
Proof.
  revert st. induction evs as [|ev evs IH]; intros st Hok; [exact Hok|].
  apply (IH (Static.step st ev)), static_step_timerOk, Hok.
Qed.

Lemma static_mount_timerOk (p : Static.Props) : Static.timerOk (Static.mount p).
Proof. reflexivity. Qed.

Lemma static_commit_fields (old new : Static.State) :
  Static.paused (Static.commit old new) = Static.paused new /\
  Static.mounted (Static.commit old new) = Static.mounted new.
Proof.
  unfold Static.commit, Static.autoplayEffect.
  destruct (_ || _); [|split; reflexivity].
  destruct (Static.paused (Static.autoplayCleanup new)); split; reflexivity.
Qed.

(** X13. In every state the static carousel reaches, an interval is armed
    exactly when the carousel is mounted and not paused, whatever the
    number of slides.  Hovering stops the autoplay (a tick then changes
    nothing), leaving starts it again, and nothing is left armed after
    unmounting. *)
Theorem static_timer_follows_guard (p : Static.Props)
    (evs : list Static.Event) :
  let st := Static.run evs (Static.mount p) in
  Static.timer st = Static.mounted st && negb (Static.paused st) /\
  (Static.mounted st = true ->
   let hovered := Static.step st Static.MouseEnter in
   Static.timer hovered = false /\
   Static.step hovered Static.Tick = hovered /\
   Static.timer (Static.step hovered Static.MouseLeave) = true) /\
  Static.timer (Static.step st Static.Unmount) = false.
Proof.
  intros st.
  assert (Hok : forall more, Static.timerOk (Static.run more st)).
  { intros more. apply static_run_timerOk, static_run_timerOk,
      static_mount_timerOk. }
  split; [exact (Hok [])|]. split.
  - intros Hm hovered.
    assert (Hh : hovered = Static.commit st (Static.setPaused true st)).
    { unfold hovered, Static.step. rewrite Hm. reflexivity. }
    destruct (static_commit_fields st (Static.setPaused true st)) as (Hpa & Hmo).
    rewrite <- Hh in Hpa, Hmo.
    change (Static.paused (Static.setPaused true st)) with true in Hpa.
    change (Static.mounted (Static.setPaused true st))
      with (Static.mounted st) in Hmo.
    pose proof (Hok [Static.MouseEnter]) as H1.
    change (Static.run [Static.MouseEnter] st) with hovered in H1.
    unfold Static.timerOk in H1. rewrite Hpa, andb_false_r in H1.
    split; [exact H1|]. split.
    + unfold Static.step. rewrite H1. destruct (negb _); reflexivity.
    + pose proof (Hok [Static.MouseEnter; Static.MouseLeave]) as H2.
      change (Static.run [Static.MouseEnter; Static.MouseLeave] st)
        with (Static.step hovered Static.MouseLeave) in H2.
      unfold Static.timerOk in H2. rewrite H2.
      unfold Static.step. rewrite Hmo, Hm. cbn [negb].
      destruct (static_commit_fields hovered (Static.setPaused false hovered))
        as (Hpa2 & Hmo2).
      rewrite Hpa2, Hmo2.
      change (Static.mounted (Static.setPaused false hovered))
        with (Static.mounted hovered).
      change (Static.paused (Static.setPaused false hovered)) with false.
      rewrite Hmo, Hm. reflexivity.
  - unfold Static.step. destruct (Static.mounted st) eqn:Hm; cbn.
    + reflexivity.
    + pose proof (Hok []) as H0. cbn in H0. unfold Static.timerOk in H0.
      rewrite H0, Hm. reflexivity.
Qed.

Lemma static_step_nonneg (st : Static.State) (ev : Static.Event) :
  0 <= Static.index st -> 0 <= Static.index (Static.step st ev).
Proof.
  intros H0.
  pose proof (static_len_pos st) as Hl.
  unfold Static.step. destruct (negb (Static.mounted st)); [exact H0|].
  destruct ev.
  - rewrite (proj2 (CarouselProofs.static_commit_keeps _ _)). exact H0.
  - rewrite (proj2 (CarouselProofs.static_commit_keeps _ _)). exact H0.
  - rewrite (proj2 (CarouselProofs.static_commit_keeps _ _)). exact H0.
  - destruct (Static.timer st); [|exact H0].
    apply (Z.rem_bound_pos (Static.index st + 1) (Static.len st)); lia.
  - destruct (Static.arrowsShown st); [|exact H0].
    apply (Z.rem_bound_pos (Static.index st + -1 + Static.len st)
             (Static.len st)); lia.
  - destruct (Static.arrowsShown st); [|exact H0].
    apply (Z.rem_bound_pos (Static.index st + 1 + Static.len st)
             (Static.len st)); lia.
  - destruct (_ && _); [|exact H0]. cbn. lia.
  - exact H0.
Qed.

(** X14. The index of the static carousel is never negative, and although
    new images may leave it past the last slide, the next tick of the
    interval, click on an arrow or click on a dot puts it back on a
    slide. *)
Theorem static_index_recovers (p : Static.Props) (evs : list Static.Event) :
  let st := Static.run evs (Static.mount p) in
  0 <= Static.index st /\
  0 <= Static.index (Static.tick st) < Static.len st /\
  0 <= Static.index (Static.go 1 st) < Static.len st /\
  0 <= Static.index (Static.go (-1) st) < Static.len st /\
  (forall i : nat,
     Static.mounted st = true -> Static.dotsShown st = true ->
     Z.of_nat i < Static.len st ->
     Static.index (Static.step st (Static.ClickDot i)) = Z.of_nat i).
Proof.
  intros st.
  assert (H0 : 0 <= Static.index st).
  { subst st. generalize (Static.mount p) (Z.le_refl 0 : 0 <= Static.index (Static.mount p)).
    induction evs as [|ev evs IH]; intros s Hs; [exact Hs|].
    apply (IH (Static.step s ev)), static_step_nonneg, Hs. }
  pose proof (static_len_pos st) as Hl.
  split; [exact H0|].
  split; [apply (Z.rem_bound_pos (Static.index st + 1) (Static.len st)); lia|].
  split; [apply (Z.rem_bound_pos (Static.index st + 1 + Static.len st)
                   (Static.len st)); lia|].
  split; [apply (Z.rem_bound_pos (Static.index st + -1 + Static.len st)
                   (Static.len st)); lia|].
  intros i Hm Hd Hi. unfold Static.step. rewrite Hm, Hd.
  apply Z.ltb_lt in Hi. rewrite Hi. reflexivity.
Qed.

(** ** A full turn of the autoplay *)

Lemma gallery_ticks (k : nat) (st : Gallery.State) :
  Gallery.mounted st = true -> Gallery.timer st = true ->
  0 <= Gallery.index st < Gallery.len st ->
  Gallery.index (Gallery.run (repeat Gallery.Tick k) st) =
    (Gallery.index st + Z.of_nat k) mod Gallery.len st.
Proof.
  revert st. induction k as [|k IH]; intros st Hm Ht Hi.
  - cbn. rewrite Z.add_0_r. symmetry. apply Z.mod_small, Hi.
  - cbn [repeat Gallery.run fold_left].
    fold (Gallery.run (repeat Gallery.Tick k) (Gallery.step st Gallery.Tick)).
    assert (Hs : Gallery.step st Gallery.Tick = Gallery.tick st).
    { unfold Gallery.step. rewrite Hm, Ht. reflexivity. }
    rewrite Hs.
    assert (Hix : Gallery.index (Gallery.tick st) =
                  (Gallery.index st + 1) mod Gallery.len st).
    { apply Z.rem_mod_nonneg; lia. }
    rewrite IH; [| exact Hm | exact Ht |].
    + change (Gallery.len (Gallery.tick st)) with (Gallery.len st).
      rewrite Hix, Zplus_mod_idemp_l. f_equal. lia.
    + change (Gallery.len (Gallery.tick st)) with (Gallery.len st).
      rewrite Hix. apply Z.mod_pos_bound. lia.
Qed.

Lemma static_ticks (k : nat) (st : Static.State) :
  Static.mounted st = true -> Static.timer st = true ->
  0 <= Static.index st < Static.len st ->
  Static.index (Static.run (repeat Static.Tick k) st) =
    (Static.index st + Z.of_nat k) mod Static.len st.
Proof.
  revert st. induction k as [|k IH]; intros st Hm Ht Hi.
  - cbn. rewrite Z.add_0_r. symmetry. apply Z.mod_small, Hi.
  - cbn [repeat Static.run fold_left].
    fold (Static.run (repeat Static.Tick k) (Static.step st Static.Tick)).
    assert (Hs : Static.step st Static.Tick = Static.tick st).
    { unfold Static.step. rewrite Hm, Ht. reflexivity. }
    rewrite Hs.
    assert (Hix : Static.index (Static.tick st) =
                  (Static.index st + 1) mod Static.len st).
    { apply Z.rem_mod_nonneg; lia. }
    rewrite IH; [| exact Hm | exact Ht |].
    + change (Static.len (Static.tick st)) with (Static.len st).
      rewrite Hix, Zplus_mod_idemp_l. f_equal. lia.
    + change (Static.len (Static.tick st)) with (Static.len st).
      rewrite Hix. apply Z.mod_pos_bound. lia.
Qed.

(** X15. While the interval runs and the index is on a slide, [k] ticks
    move either carousel to slide [(i + k) mod N]: the autoplay shows every
    slide in turn and is back where it started after exactly [N] ticks.
    The Next arrow does to the index what one tick does. *)
Theorem autoplay_cycles :
  (forall st : Gallery.State,
     Gallery.mounted st = true -> Gallery.timer st = true ->
     0 <= Gallery.index st < Gallery.len st ->
     (forall k : nat,
        Gallery.index (Gallery.run (repeat Gallery.Tick k) st) =
          (Gallery.index st + Z.of_nat k) mod Gallery.len st) /\
     Gallery.index
       (Gallery.run (repeat Gallery.Tick (Z.to_nat (Gallery.len st))) st) =
       Gallery.index st /\
     Gallery.index (Gallery.go 1 st) = Gallery.index (Gallery.tick st)) /\
  (forall st : Static.State,
     Static.mounted st = true -> Static.timer st = true ->
     0 <= Static.index st < Static.len st ->
     (forall k : nat,
        Static.index (Static.run (repeat Static.Tick k) st) =
          (Static.index st + Z.of_nat k) mod Static.len st) /\
     Static.index
       (Static.run (repeat Static.Tick (Z.to_nat (Static.len st))) st) =
       Static.index st /\
     Static.index (Static.go 1 st) = Static.index (Static.tick st)).
Proof.
  split.
  - intros st Hm Ht Hi.
    split; [intros k; apply gallery_ticks; assumption|]. split.
    + rewrite gallery_ticks by assumption.
      rewrite Z2Nat.id by lia.
      rewrite <- (Z.mul_1_l (Gallery.len st)) at 1.
      rewrite Z_mod_plus_full. apply Z.mod_small, Hi.
    + apply (CarouselProofs.rem_shift (Gallery.index st + 1) (Gallery.len st));
        lia.
  - intros st Hm Ht Hi.
    split; [intros k; apply static_ticks; assumption|]. split.
    + rewrite static_ticks by assumption.
      rewrite Z2Nat.id by lia.
      rewrite <- (Z.mul_1_l (Static.len st)) at 1.
      rewrite Z_mod_plus_full. apply Z.mod_small, Hi.
    + apply (CarouselProofs.rem_shift (Static.index st + 1) (Static.len st));
        lia.
Qed.

(** ** The theorems at work on the sample carousels *)

Lemma gallery_items_are_string_images_witness :
  In "b.jpg"
    (Gallery.items (Some [Samples.picture 1 ""; Samples.picture 2 "b.jpg"])).
Proof.
  apply (proj1 (gallery_items_are_string_images
                  (Some [Samples.picture 1 ""; Samples.picture 2 "b.jpg"]))).
  split; [discriminate|].
  exists (Samples.picture 2 "b.jpg"). split; [right; left|]; reflexivity.
Defined.

Lemma gallery_index_always_in_range_witness :
  let st :=
    Gallery.run
      [Gallery.ClickPrev;
       Gallery.Query false false
         (Some [Samples.picture 1 "a.jpg"; Samples.picture 2 "b.jpg"])]
      Samples.gallery in
  0 <= Gallery.index st < Gallery.len st.
Proof.
  apply (proj2 (proj2 (gallery_index_always_in_range
                         Gallery.defaultProps false false
                         (Some [Samples.picture 1 "a.jpg";
                                Samples.picture 2 "b.jpg";
                                Samples.picture 3 "c.jpg"])
                         [Gallery.ClickPrev;
                          Gallery.Query false false
                            (Some [Samples.picture 1 "a.jpg";
                                   Samples.picture 2 "b.jpg"])]))).
  reflexivity.
Defined.

Lemma gallery_timer_follows_guard_witness :
  let hovered := Gallery.step Samples.gallery Gallery.MouseEnter in
  Gallery.timer hovered = false /\
  Gallery.step hovered Gallery.Tick = hovered /\
  Gallery.timer (Gallery.step hovered Gallery.MouseLeave) =
    (1 <? Gallery.len Samples.gallery).
Proof.
  apply (proj1 (proj2 (gallery_timer_follows_guard
                         Gallery.defaultProps false false
                         (Some [Samples.picture 1 "a.jpg";
                                Samples.picture 2 "b.jpg";
                                Samples.picture 3 "c.jpg"])
                         []))); reflexivity.
Defined.

Lemma static_items_never_empty_witness :
  Static.items (Some []) =
    [Static.DEFAULT_IMAGE; Static.DEFAULT_IMAGE; Static.DEFAULT_IMAGE] /\
  Static.items (Some ["a.jpg"]) = ["a.jpg"].
Proof.
  split.
  - apply (proj1 (proj2 (static_items_never_empty (Some [])))).
    right. reflexivity.
  - apply (proj1 (proj2 (proj2 (static_items_never_empty (Some ["a.jpg"]))))).
    + reflexivity.
    + discriminate.
Defined.

Lemma static_timer_follows_guard_witness :
  let hovered := Static.step Samples.single Static.MouseEnter in
  Static.timer hovered = false /\
  Static.step hovered Static.Tick = hovered /\
  Static.timer (Static.step hovered Static.MouseLeave) = true.
Proof.
  apply (proj1 (proj2 (static_timer_follows_guard
                         (Static.defaultProps (Some ["a.jpg"])) []))).
  reflexivity.
Defined.

Lemma static_index_recovers_witness :
  Static.index (Static.step Samples.slides (Static.ClickDot 2)) = 2.
Proof.
  apply (proj2 (proj2 (proj2 (proj2 (static_index_recovers
           (Static.defaultProps (Some ["a.jpg"; "b.jpg"; "c.jpg"])) []))))
           2%nat); reflexivity.
Defined.

Lemma autoplay_cycles_witness :
  Gallery.index (Gallery.run (repeat Gallery.Tick 3) Samples.gallery) =
    Gallery.index Samples.gallery /\
  Static.index (Static.go 1 Samples.slides) =
    Static.index (Static.tick Samples.slides).
Proof.
  assert (Hi : 0 <= 0 < 3) by (split; [discriminate | reflexivity]).
  split.
  - apply (proj1 (proj2 (proj1 autoplay_cycles Samples.gallery
                           eq_refl eq_refl Hi))).
  - apply (proj2 (proj2 (proj2 autoplay_cycles Samples.slides
                           eq_refl eq_refl Hi))).
Defined.

End CarouselExtras.
